(** * Nas-Everything-search: the index build-and-serve engine of main.go

    A shallow embedding of [main.go]: the SQLite store with its two tables,
    the rebuild transaction of [scanAndSave], the [/get] handler and the
    start-up sequence of [main], followed by the properties of the
    specification that were checked against them.

    Conventions.  A Go [string] is a [string], read as its bytes; an
    [int64] that the program only stores and copies is a [Z]; a Go
    [map[string]int64] is a [gmap string Z]; a value of type [error] is an
    [error]; a function that returns [(T, error)] returns a [result T].
    State that the Go code mutates (the transaction, the path cache, the
    counters, the log) is passed explicitly. *)

From Stdlib Require Import ZArith List Ascii String Bool DecimalString.
From stdpp Require Import base option list gmap strings fin_maps.
Import ListNotations.

Local Open Scope string_scope.
Local Open Scope Z_scope.
Local Open Scope list_scope.

(* stdpp keeps [append] folded; the proofs below compute with it. *)
#[local] Arguments String.append _ _ : simpl nomatch.

(* ===================================================================== *)
(** * Errors and results *)
(* ===================================================================== *)

(** Go's [error] values that the program can meet: [sql.ErrNoRows], which
    [Row.Scan] returns when a query produced no row, and an error reported
    by the database driver or the operating system. *)
Inductive error : Type :=
  | ErrNoRows
  | ErrDriver (msg : string).

(** What a Go function that returns [(T, E)] gives back, for an error type
    [E]: the value, or the error. *)
Inductive outcome_of (E A : Type) : Type :=
  | Ok (a : A)
  | Err (e : E).
Arguments Ok {E A} a.
Arguments Err {E A} e.

(** The common case, where the error is an [error] whose text the program
    logs or sends. *)
Definition result : Type -> Type := outcome_of error.

Definition error_message (e : error) : string :=
  match e with
  | ErrNoRows => "sql: no rows in result set"
  | ErrDriver msg => msg
  end.

(* ===================================================================== *)
(** * Strings *)
(* ===================================================================== *)

Module Str.





Fixpoint existsc (f : ascii -> bool) (s : string) : bool :=
  match s with
  | EmptyString => false
  | String c s' => f c || existsc f s'
  end.

(** Go's [strings.Split] for a one-character separator: the pieces
    between the separators, in order; never the empty list. *)
Fixpoint split_on (sep : ascii) (s : string) : list string :=
  match s with
  | EmptyString => [EmptyString]
  | String c s' =>
      if Ascii.eqb c sep then EmptyString :: split_on sep s'
      else match split_on sep s' with
           | [] => [String c EmptyString]
           | w :: ws => String c w :: ws
           end
  end.

Fixpoint join_with (sep : string) (l : list string) : string :=
  match l with
  | [] => EmptyString
  | [w] => w
  | w :: ws => w +:+ sep +:+ join_with sep ws
  end.

End Str.

(* ===================================================================== *)
(** * The store: SQLite as the program uses it *)
(* ===================================================================== *)

Module Sqlite.

(** The program reaches SQLite through [database/sql] and the
    [modernc.org/sqlite] driver.  The tables are modelled by their rows,
    and each statement of the program by what SQLite documents it to do
    on them. *)

(** One row of [paths (id INTEGER PRIMARY KEY, path TEXT NOT NULL UNIQUE)]. *)
Record path_row : Type := mk_path_row {
  p_id : Z;
  p_path : string
}.

(** One row of [files (id INTEGER PRIMARY KEY, path_id, filename, size,
    create_time)]. *)
Record file_row : Type := mk_file_row {
  f_id : Z;
  f_path_id : Z;
  f_filename : string;
  f_size : Z;
  f_create_time : string
}.

(** The contents of the two tables: one generation of the index. Rows
    are kept in insertion order. *)
Record store : Type := mk_store {
  paths : list path_row;
  files : list file_row
}.

Definition empty_store : store := {| paths := []; files := [] |}.

(** ** LIKE *)

(** SQLite compares a pattern and a text with [patternCompare], which
    reads both as C strings of UTF-8: up to the first NUL byte, one
    character at a time ([sqlite3Utf8Read]).  A character is a 32-bit
    number. *)

(** The part of a string before its first NUL byte. *)
Fixpoint cstring (s : string) : string :=
  match s with
  | EmptyString => EmptyString
  | String c s' =>
      if Ascii.eqb c Ascii.zero then EmptyString else String c (cstring s')
  end.

(** A byte of the form [10xxxxxx]. *)
Definition is_continuation (b : N) : bool := (N.land b 192 =? 128)%N.

(** [sqlite3Utf8Trans1]: the bits that the lead byte [0xC0 + i] brings. *)
Definition lead_payload (i : N) : N :=
  (if i <? 32 then i
   else if i <? 48 then i - 32
   else if i <? 56 then i - 48
   else if i <? 60 then i - 56
   else if i <? 62 then i - 60
   else 0)%N.

(** One more continuation byte, in 32-bit unsigned arithmetic. *)
Definition push_bits (c b : N) : N := ((c * 64 + N.land b 63) mod 2 ^ 32)%N.

(** The end of a multi-byte character: a value below 0x80, a surrogate,
    0xFFFE or 0xFFFF is replaced by U+FFFD. *)
Definition close_char (c : N) : N :=
  (if (c <? 128) || (N.land c 4294965248 =? 55296)
      || (N.land c 4294967294 =? 65534)
   then 65533 else c)%N.

(** The characters of a string as [sqlite3Utf8Read] reads them one after
    the other: a byte below 0xC0 is a character by itself; a byte from
    0xC0 starts a character that takes every continuation byte that
    follows.  [pending] is the character that is being read. *)
Fixpoint utf8_read (s : string) (pending : option N) : list N :=
  match s with
  | EmptyString =>
      match pending with
      | Some c => [close_char c]
      | None => []
      end
  | String a rest =>
      let b := N_of_ascii a in
      match pending with
      | Some c =>
          if is_continuation b then utf8_read rest (Some (push_bits c b))
          else
            close_char c ::
            (if (b <? 192)%N then b :: utf8_read rest None
             else utf8_read rest (Some (lead_payload (b - 192))))
      | None =>
          if (b <? 192)%N then b :: utf8_read rest None
          else utf8_read rest (Some (lead_payload (b - 192)))
      end
  end.

(** The characters that [patternCompare] sees in a Go string. *)
Definition characters (s : string) : list N := utf8_read (cstring s) None.


Definition tolower_char (c : N) : N :=
  (if (65 <=? c) && (c <=? 90) then c + 32 else c)%N.

(** The comparison of one ordinary pattern character with one character
    of the text, as [patternCompare] makes it with [case_sensitive_like]
    off (the default): equal, or equal after case folding when both are
    below 0x80. *)
Definition char_eq_nocase (c d : N) : bool :=
  ((c =? d)
   || ((tolower_char c =? tolower_char d) && (c <? 128) && (d <? 128)))%N.



(** [LIKE] without an [ESCAPE] clause on characters: [%] (37) stands for
    any run of characters, also the empty one, [_] (95) for exactly one
    character, and any other character for itself up to ASCII case. *)
Fixpoint like_chars (p s : list N) : bool :=
  match p with
  | [] =>
      match s with [] => true | _ :: _ => false end
  | c :: p' =>
      if (c =? 37)%N then
        (fix any (s : list N) : bool :=
           like_chars p' s ||
           match s with
           | [] => false
           | _ :: s' => any s'
           end) s
      else
        match s with
        | [] => false
        | d :: s' => ((c =? 95)%N || char_eq_nocase c d) && like_chars p' s'
        end
  end.

(** [like p s]: the text [s] matches the pattern [p] under SQLite's
    [LIKE].  (SQLite refuses a pattern of more than 50000 bytes with an
    error of the statement; that is one of the failures of a read.) *)
Definition like (p s : string) : bool :=
  like_chars (characters p) (characters s).

(** Texts on which the bytes and the characters agree. *)
Definition nul_free (s : string) : bool :=
  negb (Str.existsc (fun c => Ascii.eqb c Ascii.zero) s).

Definition ascii_text (s : string) : bool :=
  negb (Str.existsc (fun c => (128 <=? N_of_ascii c)%N) s).

(** The bytes of a string as numbers. *)
Fixpoint bytes (s : string) : list N :=
  match s with
  | EmptyString => []
  | String c s' => N_of_ascii c :: bytes s'
  end.


(** ** Row ids *)

(** The rowid SQLite gives a new row of a table with an
    [INTEGER PRIMARY KEY] and no explicit id: one more than the largest
    id in the table, 1 in an empty table.  (SQLite departs from this only
    in a table that holds the largest 64-bit id.) *)
Definition next_rowid (ids : list Z) : Z :=
  1 + fold_right Z.max 0 ids.

(** ** The statements of the program *)

(** [DELETE FROM files] and [DELETE FROM paths] *)
Definition delete_files (db : store) : store :=
  {| paths := paths db; files := [] |}.

Definition delete_paths (db : store) : store :=
  {| paths := []; files := files db |}.

(** [INSERT OR IGNORE INTO paths (path) VALUES (?) RETURNING id]: a path
    that is already in the table violates UNIQUE, the row is ignored and
    the statement returns no row; otherwise the row is added and its id
    returned. *)
Definition insert_or_ignore_path (db : store) (dir : string)
  : store * option Z :=
  if existsb (fun r => String.eqb (p_path r) dir) (paths db) then (db, None)
  else
    let id := next_rowid (map p_id (paths db)) in
    ({| paths := paths db ++ [mk_path_row id dir]; files := files db |},
     Some id).

(** [INSERT INTO files (path_id, filename, size, create_time)
     VALUES (?, ?, ?, ?)].  The schema declares the foreign key, but
    SQLite does not enforce foreign keys unless the connection turns
    them on, and the program does not. *)
Definition insert_file (db : store) (path_id : Z) (filename : string)
    (size : Z) (create_time : string) : store :=
  let id := next_rowid (map f_id (files db)) in
  {| paths := paths db;
     files := files db ++ [mk_file_row id path_id filename size create_time] |}.

(** The join: the rows of [paths] whose id is the [path_id] of [f],
    each with the columns of [f] that the query selects. *)
Definition joined_rows (ps : list path_row) (f : file_row)
  : list (string * string * Z * string) :=
  flat_map
    (fun p =>
       if (f_path_id f =? p_id p)%Z
       then [(p_path p, f_filename f, f_size f, f_create_time f)]
       else [])
    ps.

(** [SELECT p.path, f.filename, f.size, f.create_time FROM files f
     JOIN paths p ON f.path_id = p.id WHERE f.filename LIKE ?] *)
Definition select_files_like (db : store) (pattern : string)
  : list (string * string * Z * string) :=
  flat_map
    (fun f =>
       if like pattern (f_filename f) then joined_rows (paths db) f
       else [])
    (files db).

(** Every row of the two tables joined, which is what the [SELECT]
    gives when its pattern lets every filename through: the
    [(path, filename, size, timestamp)] tuples of a generation. *)
Definition tuples (db : store) : list (string * string * Z * string) :=
  select_files_like db "%".

(** No row of [files] points to a row that [paths] does not have. *)
Definition no_orphans (db : store) : bool :=
  forallb
    (fun f => existsb (fun p => (p_id p =? f_path_id f)%Z) (paths db))
    (files db).

(** ** Opening a handle *)

(** The drivers registered with [database/sql]: the blank import of
    [modernc.org/sqlite] registers ["sqlite"]. *)
Definition drivers : list string := ["sqlite"].

(** [sql.Open] only looks the driver up; it connects on first use. *)
Definition sql_Open (driverName : string) : result unit :=
  if existsb (String.eqb driverName) drivers then Ok tt
  else Err (ErrDriver ("sql: unknown driver " +:+ driverName)).

(** ** Transactions *)

(** A transaction in progress: [view], the tables as the transaction
    sees them; [sent], how many statements it has been sent; [hist],
    every content its view has gone through, newest first (kept to state
    what holds at every point of a rebuild). *)
Record txn : Type := mk_txn {
  view : store;
  sent : nat;
  hist : list store
}.

(** [db.Begin]: the transaction starts from the committed generation. *)
Definition Begin (committed : store) : txn :=
  {| view := committed; sent := 0; hist := [committed] |}.

(** Which statements of a transaction the database refuses, and with
    which message: statement [n], counting from 0, fails when the plan
    gives [Some msg] at [n]. *)
Definition fault_plan : Type := nat -> option string.

Definition no_faults : fault_plan := fun _ => None.

(** One statement sent to the transaction.  A statement is atomic: it
    fails and leaves the view as it was, or it takes effect. *)
Definition run {A : Type} (faults : fault_plan) (t : txn)
    (stmt : store -> store * A) : txn * result A :=
  match faults (sent t) with
  | Some msg =>
      ({| view := view t; sent := S (sent t); hist := hist t |},
       Err (ErrDriver msg))
  | None =>
      let '(db', a) := stmt (view t) in
      ({| view := db'; sent := S (sent t); hist := db' :: hist t |}, Ok a)
  end.

(** [Row.Scan] on the row of a [RETURNING] clause: the error of the
    statement, [sql.ErrNoRows] when it returned no row, else the id. *)
Definition Row_Scan (res : result (option Z)) : result Z :=
  match res with
  | Err e => Err e
  | Ok None => Err ErrNoRows
  | Ok (Some id) => Ok id
  end.

(** [tx.Commit]: the view becomes the committed generation. *)
Definition Commit (t : txn) : store := view t.

End Sqlite.

(* ===================================================================== *)
(** * path/filepath, on a system whose separator is the slash *)
(* ===================================================================== *)

Module Filepath.

Definition Separator : ascii := "/"%char.

Definition IsPathSeparator (c : ascii) : bool := Ascii.eqb c Separator.

(** [filepath.ToSlash]: replaces the separator by a slash; where the
    separator is the slash the path is returned as it is. *)
Definition ToSlash (path : string) : string := path.

(** The elements that [Clean] keeps, read left to right; [out] is the
    output so far, last element first.  An empty element and [.] are
    dropped; [..] removes the element before it when there is one to
    remove, is dropped at the root, and is kept at the head of a path
    that is not rooted. *)
Fixpoint clean_elems (rooted : bool) (elems out : list string)
  : list string :=
  match elems with
  | [] => rev out
  | e :: es =>
      if String.eqb e "" then clean_elems rooted es out
      else if String.eqb e "." then clean_elems rooted es out
      else if String.eqb e ".." then
        match out with
        | top :: out' =>
            if String.eqb top ".." then clean_elems rooted es (e :: out)
            else clean_elems rooted es out'
        | [] =>
            if rooted then clean_elems rooted es []
            else clean_elems rooted es [e]
        end
      else clean_elems rooted es (e :: out)
  end.

(** [filepath.Clean] *)
Definition Clean (path : string) : string :=
  match path with
  | EmptyString => "."
  | String c _ =>
      let rooted := IsPathSeparator c in
      let out := clean_elems rooted (Str.split_on Separator path) [] in
      let s := (if rooted then "/" else "") +:+ Str.join_with "/" out in
      if String.eqb s "" then "." else s
  end.

(** [path[0 : i+1]] for [i] the index of the last separator of [path]
    (the empty string when it has none). *)
Fixpoint through_last_separator (path : string) : string :=
  match path with
  | EmptyString => EmptyString
  | String c rest =>
      if IsPathSeparator c || Str.existsc IsPathSeparator rest
      then String c (through_last_separator rest)
      else EmptyString
  end.

(** [filepath.Dir] *)
Definition Dir (path : string) : string :=
  Clean (through_last_separator path).

Fixpoint strip_trailing_separators (path : string) : string :=
  match path with
  | EmptyString => EmptyString
  | String c rest =>
      let r := strip_trailing_separators rest in
      if String.eqb r "" && IsPathSeparator c then EmptyString
      else String c r
  end.

Fixpoint after_last_separator (path : string) : string :=
  match path with
  | EmptyString => EmptyString
  | String c rest =>
      if IsPathSeparator c || Str.existsc IsPathSeparator rest
      then after_last_separator rest
      else path
  end.

(** [filepath.Base] *)
Definition Base (path : string) : string :=
  match path with
  | EmptyString => "."
  | String _ _ =>
      let p := after_last_separator (strip_trailing_separators path) in
      if String.eqb p "" then "/" else p
  end.

End Filepath.

(* ===================================================================== *)
(** * time.Time and os.FileInfo, as far as the scan reads them *)
(* ===================================================================== *)

Module Os.

(** A [time.Time] by its calendar fields in its own zone; [zone_offset]
    is the zone's offset in seconds east of UTC. *)
Record Time : Type := mk_Time {
  year : Z; month : Z; day : Z;
  hour : Z; minute : Z; second : Z;
  zone_offset : Z
}.

Definition digits (n : Z) : string :=
  DecimalString.NilZero.string_of_uint (N.to_uint (Z.to_N n)).

Fixpoint zeros (n : nat) : string :=
  match n with
  | O => EmptyString
  | S k => String "0"%char (zeros k)
  end.

(** [appendInt]: the decimal digits of [x], padded with zeros on the
    left to [width] digits, after a minus sign when [x] is negative. *)
Definition appendInt (x : Z) (width : nat) : string :=
  let d := digits (Z.abs x) in
  (if (x <? 0)%Z then "-" else "") +:+ zeros (width - String.length d) +:+ d.

(** [t.Format(time.RFC3339)], the layout [2006-01-02T15:04:05Z07:00]. *)
Definition Format_RFC3339 (t : Time) : string :=
  appendInt (year t) 4 +:+ "-" +:+ appendInt (month t) 2 +:+ "-" +:+
  appendInt (day t) 2 +:+ "T" +:+ appendInt (hour t) 2 +:+ ":" +:+
  appendInt (minute t) 2 +:+ ":" +:+ appendInt (second t) 2 +:+
  (if (zone_offset t =? 0)%Z then "Z"
   else
     let zone := Z.quot (zone_offset t) 60 in
     (if (zone <? 0)%Z then "-" else "+") +:+
     appendInt (Z.quot (Z.abs zone) 60) 2 +:+ ":" +:+
     appendInt (Z.rem (Z.abs zone) 60) 2).

(** What the scan reads of an [os.FileInfo]. *)
Record FileInfo : Type := mk_FileInfo {
  Size : Z;
  ModTime : Time;
  IsDir : bool
}.

(** One call that [filepath.Walk] makes to its callback: either
    [fn(path, info, nil)], or [fn(path, info, err)] with [err != nil]
    for an entry it could not read. *)
Inductive visit : Type :=
  | Visit (path : string) (info : FileInfo)
  | VisitErr (path : string) (err : error).

(** [filepath.Walk] over a tree whose visits, in lexical order, are
    [visits]: the callback is called on each in turn, threading the state
    [S] of the variables it captures; the first error it returns stops
    the walk and is what [Walk] returns.  (The callbacks of the program
    never return [SkipDir], so what is visited does not depend on them.) *)
Fixpoint Walk {S : Type} (visits : list visit)
    (fn : visit -> S -> S * option error) (s : S) : S * option error :=
  match visits with
  | [] => (s, None)
  | v :: rest =>
      match fn v s with
      | (s', Some e) => (s', Some e)
      | (s', None) => Walk rest fn s'
      end
  end.

End Os.


(* ===================================================================== *)
(** * scanAndSave: one full rebuild *)
(* ===================================================================== *)

Module Scan.
Import Sqlite Os Filepath.

(** What the rebuild writes to the log. *)
Inductive log_line : Type :=
  | Println (msg : string)
  | Printf_total (totalFiles : Z)
  | Printf_progress (scannedFiles totalFiles : Z)
  | Fatal (e : error).

(** What a rebuild meets outside the program: whether [db.Begin] and
    [tx.Commit] fail, which statements fail, and what the two walks
    over the configured directory visit. *)
Record env : Type := mk_env {
  begin_fault : option string;
  faults : fault_plan;
  commit_fault : option string;
  first_walk : list visit;
  second_walk : list visit
}.

(** The variables that the callback of the second walk captures. *)
Record state : Type := mk_state {
  tx : txn;
  pathCache : gmap string Z;
  scannedFiles : Z;
  log : list log_line
}.

(** How [scanAndSave] ends: it sends on [done] and returns, or it calls
    [log.Fatal], which prints and ends the process with [os.Exit(1)]. *)
Inductive outcome : Type :=
  | Done
  | Exit (code : Z) (why : error).

Record run_result : Type := mk_result {
  committed_after : store;   (* the generation in the store file *)
  last_tx : option txn;      (* the transaction, if one was begun *)
  out_log : list log_line;
  how : outcome
}.

(** [x++] on an [int64]: the sum wraps around at 64 bits. *)
Definition incr_int64 (x : Z) : Z :=
  (x + 1 + 2 ^ 63) mod 2 ^ 64 - 2 ^ 63.

(** The callback of the first walk: counts the regular files. *)
Definition count_callback (v : visit) (totalFiles : Z)
  : Z * option error :=
  match v with
  | VisitErr _ _ => (totalFiles, None)
  | Visit _ info =>
      if IsDir info then (totalFiles, None)
      else (incr_int64 totalFiles, None)
  end.

(** Lines 137-144: the id of [dir], from the cache or, on a miss, from
    the insert into [paths], which is then cached. *)
Definition path_id_of (fp : fault_plan) (s : state) (dir : string)
  : state * result Z :=
  match pathCache s !! dir with
  | Some pathID => (s, Ok pathID)
  | None =>
      let '(t', res) := run fp (tx s) (fun db => insert_or_ignore_path db dir) in
      match Row_Scan res with
      | Err e =>
          ({| tx := t'; pathCache := pathCache s;
              scannedFiles := scannedFiles s; log := log s |}, Err e)
      | Ok pathID =>
          ({| tx := t'; pathCache := <[dir := pathID]> (pathCache s);
              scannedFiles := scannedFiles s; log := log s |}, Ok pathID)
      end
  end.

(** The callback of the second walk (lines 127-165). *)
Definition scan_callback (fp : fault_plan) (totalFiles : Z)
    (v : visit) (s : state) : state * option error :=
  match v with
  | VisitErr _ _ => (s, None)
  | Visit path info =>
      if IsDir info then (s, None)
      else
        let dir := ToSlash (Dir path) in
        let filename := Base path in
        match path_id_of fp s dir with
        | (s1, Err e) => (s1, Some e)
        | (s1, Ok pathID) =>
            match run fp (tx s1)
                    (fun db => (insert_file db pathID filename (Size info)
                                  (Format_RFC3339 (ModTime info)), tt)) with
            | (t2, Err e) =>
                ({| tx := t2; pathCache := pathCache s1;
                    scannedFiles := scannedFiles s1; log := log s1 |},
                 Some e)
            | (t2, Ok _) =>
                let n := incr_int64 (scannedFiles s1) in
                ({| tx := t2; pathCache := pathCache s1;
                    scannedFiles := n;
                    log := if (Z.rem n 1000 =? 0)%Z
                           then log s1 ++ [Printf_progress n totalFiles]
                           else log s1 |},
                 None)
            end
        end
  end.

(** [tx.Exec("DELETE FROM files; DELETE FROM paths")]: the two
    statements, one after the other. *)
Definition clear_tables (fp : fault_plan) (t : txn) : txn * option error :=
  match run fp t (fun db => (delete_files db, tt)) with
  | (t1, Err e) => (t1, Some e)
  | (t1, Ok _) =>
      match run fp t1 (fun db => (delete_paths db, tt)) with
      | (t2, Err e) => (t2, Some e)
      | (t2, Ok _) => (t2, None)
      end
  end.

(** The state after each call of the callback that a walk makes,
    oldest first, starting with the state it is entered in. *)
Fixpoint Walk_states {S : Type} (visits : list visit)
    (fn : visit -> S -> S * option error) (s : S) : list S :=
  s :: match visits with
       | [] => []
       | v :: rest =>
           match fn v s with
           | (s', Some _) => [s']
           | (s', None) => Walk_states rest fn s'
           end
       end.

(** The cache and the [paths] table of the transaction hold the same
    pairs of a directory and its id. *)
Definition cache_agrees (s : state) : Prop :=
  forall (dir : string) (id : Z),
    pathCache s !! dir = Some id <->
    In (mk_path_row id dir) (paths (view (tx s))).

(** The transaction began on the generation [db0], and no content it
    has gone through since has an orphan. *)
Definition history_clean (db0 : store) (t : txn) : Prop :=
  exists new, hist t = new ++ [db0] /\
              List.Forall (fun d => no_orphans d = true) new.

(** What holds of the captured variables between any two statements
    of a rebuild that began on the generation [db0]: the cache mirrors
    [paths], the ids of [paths] are distinct, no file row is an orphan,
    and no content that the transaction has gone through since its
    first statement had an orphan. *)
Definition well_formed (db0 : store) (s : state) : Prop :=
  cache_agrees s /\
  List.NoDup (map p_id (paths (view (tx s)))) /\
  no_orphans (view (tx s)) = true /\
  history_clean db0 (tx s).

(** The tuple that the callback stores for a visit: none for a
    directory or an entry that could not be read. *)
Definition tuple_of (v : visit) : list (string * string * Z * string) :=
  match v with
  | VisitErr _ _ => []
  | Visit path info =>
      if IsDir info then []
      else [(ToSlash (Dir path), Base path, Size info,
             Format_RFC3339 (ModTime info))]
  end.

(** [tx.Rollback(); log.Fatal(err)]: the store keeps the generation
    that was committed before, and the process exits. *)
Definition rollback_fatal (committed : store) (t : txn)
    (lg : list log_line) (e : error) : run_result :=
  {| committed_after := committed; last_tx := Some t;
     out_log := lg ++ [Fatal e]; how := Exit 1 e |}.

(** The state in which the second walk starts. *)
Definition start_state (t : txn) (lg : list log_line) : state :=
  {| tx := t; pathCache := ∅; scannedFiles := 0; log := lg |}.

(** [scanAndSave(configPath, dbPath, done)] on a store file whose
    committed generation is [committed]. *)
Definition scanAndSave (e : env) (committed : store) : run_result :=
  let log0 := [Println "开始扫描文件..."] in
  match sql_Open "sqlite" with
  | Err err =>
      {| committed_after := committed; last_tx := None;
         out_log := log0 ++ [Fatal err]; how := Exit 1 err |}
  | Ok _ =>
  match begin_fault e with
  | Some msg =>
      {| committed_after := committed; last_tx := None;
         out_log := log0 ++ [Fatal (ErrDriver msg)];
         how := Exit 1 (ErrDriver msg) |}
  | None =>
  let t0 := Begin committed in
  match clear_tables (faults e) t0 with
  | (t1, Some err) => rollback_fatal committed t1 log0 err
  | (t1, None) =>
  match Walk (first_walk e) count_callback 0 with
  | (_, Some err) => rollback_fatal committed t1 log0 err
  | (totalFiles, None) =>
  let log1 := log0 ++ [Printf_total totalFiles] in
  match Walk (second_walk e) (scan_callback (faults e) totalFiles)
          (start_state t1 log1) with
  | (s, Some err) => rollback_fatal committed (tx s) (log s) err
  | (s, None) =>
  match commit_fault e with
  | Some msg =>
      {| committed_after := committed; last_tx := Some (tx s);
         out_log := log s ++ [Fatal (ErrDriver msg)];
         how := Exit 1 (ErrDriver msg) |}
  | None =>
      {| committed_after := Commit (tx s); last_tx := Some (tx s);
         out_log := log s ++ [Println "文件扫描完成，数据已更新"];
         how := Done |}
  end end end end end end.

(** The states of the captured variables between the calls of the
    callback during the second walk of a rebuild, oldest first; empty
    when the rebuild ends before that walk. *)
Definition scan_states (e : env) (committed : store) : list state :=
  match begin_fault e with
  | Some _ => []
  | None =>
      match clear_tables (faults e) (Begin committed) with
      | (_, Some _) => []
      | (t1, None) =>
          let totalFiles := fst (Walk (first_walk e) count_callback 0) in
          Walk_states (second_walk e)
            (scan_callback (faults e) totalFiles)
            (start_state t1
               [Println "开始扫描文件..."; Printf_total totalFiles])
      end
  end.

(** The same surroundings with no failure of the database. *)
Definition without_faults (e : env) : env :=
  {| begin_fault := None; faults := no_faults; commit_fault := None;
     first_walk := first_walk e; second_walk := second_walk e |}.

(** A plan in which statement [n] of the transaction fails. *)
Definition fail_at (n : nat) (msg : string) : fault_plan :=
  fun k => if Nat.eqb k n then Some msg else None.

End Scan.

(* ===================================================================== *)
(** * The /get handler *)
(* ===================================================================== *)

Module Server.
Import Sqlite.

(** The [FileInfo] struct of main.go, with its JSON field names. *)
Record FileInfo : Type := mk_FileInfo {
  Path : string;
  FileName : string;
  Size : Z;
  CreateTime : string
}.

(** A Go slice, which is [nil] until something is appended to it. *)
Inductive slice (A : Type) : Type :=
  | nil_slice
  | mk_slice (elems : list A).
Arguments nil_slice {A}.
Arguments mk_slice {A} elems.

Definition append {A : Type} (s : slice A) (x : A) : slice A :=
  match s with
  | nil_slice => mk_slice [x]
  | mk_slice l => mk_slice (l ++ [x])
  end.

Definition elements {A : Type} (s : slice A) : list A :=
  match s with
  | nil_slice => []
  | mk_slice l => l
  end.

(** A JSON value. *)
#[local] Unset Elimination Schemes.
Inductive json : Type :=
  | JNull
  | JNumber (n : Z)
  | JString (s : string)
  | JArray (items : list json)
  | JObject (fields : list (string * json)).
#[local] Set Elimination Schemes.

(** *** Strings in JSON *)

Definition in_range (lo hi b : N) : bool := ((lo <=? b) && (b <=? hi))%N.

(** [utf8.first] for the bytes from 0x80: the length of the sequence
    that the byte starts and the range that its second byte must be in;
    [None] for a byte that starts no sequence (0x80-0xC1, 0xF5-0xFF). *)
Definition first (b : N) : option (nat * N * N) :=
  if in_range 194 223 b then Some (2%nat, 128%N, 191%N)
  else if (b =? 224)%N then Some (3%nat, 160%N, 191%N)
  else if in_range 225 236 b then Some (3%nat, 128%N, 191%N)
  else if (b =? 237)%N then Some (3%nat, 128%N, 159%N)
  else if in_range 238 239 b then Some (3%nat, 128%N, 191%N)
  else if (b =? 240)%N then Some (4%nat, 144%N, 191%N)
  else if in_range 241 243 b then Some (4%nat, 128%N, 191%N)
  else if (b =? 244)%N then Some (4%nat, 128%N, 143%N)
  else None.

(** U+FFFD in UTF-8. *)
Definition replacement : string :=
  String (ascii_of_N 239) (String (ascii_of_N 191)
    (String (ascii_of_N 189) EmptyString)).

(** The text of a Go string as [encoding/json] writes it: every byte
    that [utf8.DecodeRuneInString] does not accept as the start of a
    well-formed sequence is replaced by U+FFFD.  (The escapes that the
    encoder writes for some characters denote the same text.) *)
Fixpoint coerce_utf8 (s : string) : string :=
  match s with
  | EmptyString => EmptyString
  | String c0 r0 =>
      let bad := replacement +:+ coerce_utf8 r0 in
      if (N_of_ascii c0 <? 128)%N then String c0 (coerce_utf8 r0)
      else
        match first (N_of_ascii c0), r0 with
        | Some (size, lo, hi), String c1 r1 =>
            if in_range lo hi (N_of_ascii c1) then
              match size, r1 with
              | 2%nat, _ => String c0 (String c1 (coerce_utf8 r1))
              | _, String c2 r2 =>
                  if in_range 128 191 (N_of_ascii c2) then
                    match size, r2 with
                    | 3%nat, _ =>
                        String c0 (String c1 (String c2 (coerce_utf8 r2)))
                    | _, String c3 r3 =>
                        if in_range 128 191 (N_of_ascii c3) then
                          String c0 (String c1 (String c2 (String c3
                            (coerce_utf8 r3))))
                        else bad
                    | _, EmptyString => bad
                    end
                  else bad
              | _, EmptyString => bad
              end
            else bad
        | _, _ => bad
        end
  end.

Definition encode_string (s : string) : json := JString (coerce_utf8 s).

Definition encode_FileInfo (fi : FileInfo) : json :=
  JObject [("path", encode_string (Path fi));
           ("filename", encode_string (FileName fi));
           ("size", JNumber (Size fi));
           ("create_time", encode_string (CreateTime fi))].

(** [encoding/json] on a [[]FileInfo]: a nil slice is encoded as
    [null], any other as an array. *)
Definition Encode (files : slice FileInfo) : json :=
  match files with
  | nil_slice => JNull
  | mk_slice l => JArray (map encode_FileInfo l)
  end.

(** A response body: the message of [http.Error], or the value that
    [Encoder.Encode] writes (each followed by a newline). *)
Inductive body : Type :=
  | Text (msg : string)
  | Json (v : json).

Record Response : Type := mk_Response {
  status : Z;
  content_type : string;
  content : body
}.

Definition StatusOK : Z := 200.
Definition StatusBadRequest : Z := 400.
Definition StatusInternalServerError : Z := 500.

Definition http_Error (msg : string) (code : Z) : Response :=
  {| status := code; content_type := "text/plain; charset=utf-8";
     content := Text msg |}.

(** [url.Values], the parsed query string, and its [Get]: the first
    value given for the key, the empty string when there is none. *)
Definition Values : Type := list (string * string).

Fixpoint Get (vs : Values) (key : string) : string :=
  match vs with
  | [] => ""
  | (k, v) :: rest => if String.eqb k key then v else Get rest key
  end.

(** What can go wrong with a read: [db.Query] returns an error
    ([query_fault]); or, after [n] rows, [rows.Next] meets an error and
    returns false ([next_fault]), which the loop of the handler takes
    for the end of the rows, since it never asks [rows.Err]. *)
Record read_faults : Type := mk_read_faults {
  query_fault : option string;
  next_fault : option nat
}.

(** [db.Query(query, pattern)] for the query of [type=file], read from
    the committed generation; [fault] is the error that [db.Query]
    returns when it fails. *)
Definition db_Query (committed : store) (fault : option string)
    (pattern : string) : result (list (string * string * Z * string)) :=
  match fault with
  | Some msg => Err (ErrDriver msg)
  | None => Ok (select_files_like committed pattern)
  end.

(** The rows for which [rows.Next] returns true. *)
Definition rows_Next {A : Type} (rows : list A) (stop : option nat)
  : list A :=
  match stop with
  | Some n => firstn n rows
  | None => rows
  end.

(** [rows.Scan(&fi.Path, &fi.FileName, &fi.Size, &createTime)] *)
Definition rows_Scan (row : string * string * Z * string)
  : result FileInfo :=
  let '(path, filename, size, createTime) := row in
  Ok {| Path := path; FileName := filename; Size := size;
        CreateTime := createTime |}.

(** The loop over the rows (lines 302-312). *)
Fixpoint collect (rows : list (string * string * Z * string))
    (files : slice FileInfo) : result (slice FileInfo) :=
  match rows with
  | [] => Ok files
  | row :: rest =>
      match rows_Scan row with
      | Err e => Err e
      | Ok fi => collect rest (append files fi)
      end
  end.

(** The handler of [/get] (lines 266-316). *)
Definition handle_get (committed : store) (rf : read_faults)
    (query : Values) : Response :=
  let key := Get query "key" in
  let queryType := Get query "type" in
  if String.eqb key "" || String.eqb queryType "" then
    http_Error "缺少查询参数" StatusBadRequest
  else
    match sql_Open "sqlite" with
    | Err e => http_Error (error_message e) StatusInternalServerError
    | Ok _ =>
        if String.eqb queryType "file" then
          match db_Query committed (query_fault rf)
                  ("%" +:+ key +:+ "%") with
          | Err e => http_Error (error_message e) StatusInternalServerError
          | Ok rows =>
              match collect (rows_Next rows (next_fault rf)) nil_slice with
              | Err e =>
                  http_Error (error_message e) StatusInternalServerError
              | Ok files =>
                  {| status := StatusOK;
                     content_type := "application/json";
                     content := Json (Encode files) |}
              end
          end
        else http_Error "无效的查询类型" StatusBadRequest
    end.

(** The handler when the rows of a read that [db.Query] began are read
    to the end; [fault] is the error of [db.Query]. *)
Definition get_handler (committed : store) (fault : option string)
    (query : Values) : Response :=
  handle_get committed {| query_fault := fault; next_fault := None |} query.

(** The record that the query gives for a row of [files] joined with
    a row of [paths]. *)
Definition record_of (p : path_row) (f : file_row) : FileInfo :=
  {| Path := p_path p; FileName := f_filename f; Size := f_size f;
     CreateTime := f_create_time f |}.

(** [search(term)]: the records that a well-formed [type=file] request
    for [term] is answered with when the read succeeds. *)
Definition search (committed : store) (term : string) : list FileInfo :=
  match collect (select_files_like committed ("%" +:+ term +:+ "%"))
          nil_slice with
  | Ok files => elements files
  | Err _ => []
  end.

End Server.

(* ===================================================================== *)
(** * main: start-up, the scheduler and the serving process *)
(* ===================================================================== *)

Module Main.
Import Sqlite Filepath.

(** ** strconv.Atoi *)

Definition digit_value (c : ascii) : option Z :=
  let n := N_of_ascii c in
  if ((48 <=? n) && (n <=? 57))%N then Some (Z.of_N n - 48) else None.

Fixpoint digits_value (s : string) (acc : Z) : option Z :=
  match s with
  | EmptyString => Some acc
  | String c rest =>
      match digit_value c with
      | Some d => digits_value rest (acc * 10 + d)
      | None => None
      end
  end.

(** The two errors a conversion can wrap: [strconv.ErrSyntax] and
    [strconv.ErrRange]. *)
Inductive conversion_error : Type :=
  | ErrSyntax
  | ErrRange.

(** [*strconv.NumError]: the function that failed, its input and the
    reason.  [main] only tests the error of [Atoi] against [nil] and never
    asks for its text, so the text is not modelled. *)
Record NumError : Type := mk_NumError {
  Func : string;
  Num : string;
  Err_of : conversion_error
}.

Definition syntax_error (s : string) : NumError :=
  {| Func := "Atoi"; Num := s; Err_of := ErrSyntax |}.

Definition range_error (s : string) : NumError :=
  {| Func := "Atoi"; Num := s; Err_of := ErrRange |}.

(** [strconv.Atoi]: an optional sign and at least one decimal digit; a
    value that does not fit an [int] (64 bits) is an error. *)
Definition Atoi (s : string) : outcome_of NumError Z :=
  let unsigned (neg : bool) (ds : string) : outcome_of NumError Z :=
    match ds with
    | EmptyString => Err (syntax_error s)
    | String _ _ =>
        match digits_value ds 0 with
        | None => Err (syntax_error s)
        | Some n =>
            let v := if neg then - n else n in
            if (- 2 ^ 63 <=? v) && (v <=? 2 ^ 63 - 1) then Ok v
            else Err (range_error s)
        end
    end in
  match s with
  | EmptyString => Err (syntax_error s)
  | String c rest =>
      if Ascii.eqb c "-"%char then unsigned true rest
      else if Ascii.eqb c "+"%char then unsigned false rest
      else unsigned false s
  end.

(** ** The world [main] starts in *)

(** [os.Stat] as the program looks at it: no error, an error for which
    [os.IsNotExist] holds, or another error. *)
Inductive stat_result : Type :=
  | StatOk
  | StatNotExist
  | StatError.

Record world : Type := mk_world {
  Executable : result string;           (* os.Executable() *)
  godotenv_Load : string -> option error;   (* godotenv.Load(file) *)
  Getenv : string -> string;            (* os.Getenv, after Load *)
  Getwd : result string;                (* os.Getwd(), used by Abs *)
  Stat : string -> stat_result;         (* os.Stat(name) *)
  existing : store;                     (* the generation in sql.db, when it is there *)
  initDB_fault : option error;          (* the error of initDB *)
  first_scan : Scan.env;                (* what the first scan meets *)
  AddFunc_fault : option error;         (* the error of cron's AddFunc *)
  Listen_fault : option error           (* the error of ListenAndServe at start *)
}.

(** [filepath.Join] of two elements. *)
Definition Join (a b : string) : string :=
  if String.eqb a "" then (if String.eqb b "" then "" else Clean b)
  else if String.eqb b "" then Clean a
  else Clean (a +:+ "/" +:+ b).

(** [filepath.Abs] *)
Definition Abs (w : world) (path : string) : result string :=
  match path with
  | String c _ =>
      if IsPathSeparator c then Ok (Clean path)
      else match Getwd w with
           | Err e => Err e
           | Ok wd => Ok (Join wd path)
           end
  | EmptyString =>
      match Getwd w with
      | Err e => Err e
      | Ok wd => Ok (Join wd path)
      end
  end.

(** [processPath] *)
Definition processPath (w : world) (inputPath : string) : result string :=
  let cleanPath := ToSlash inputPath in
  match Abs w cleanPath with
  | Err e => Err (ErrDriver ("路径解析失败: " +:+ error_message e))
  | Ok absPath =>
      match Stat w absPath with
      | StatNotExist => Err (ErrDriver ("目标目录不存在: " +:+ absPath))
      | _ => Ok (ToSlash absPath)
      end
  end.

(** [initDB] on a store file that does not exist yet: the file is
    created with the two empty tables, or an error is returned. *)
Definition initDB (w : world) : result store :=
  match initDB_fault w with
  | Some e => Err e
  | None => Ok empty_store
  end.

(** ** Start-up *)

(** What start-up does that the properties speak of, in order. *)
Inductive event : Type :=
  | InitDB                 (* initDB returned without error *)
  | ScanStarted            (* go scanAndSave(...) *)
  | ScanDone               (* <-done *)
  | CronStarted (hour minute : Z)   (* cronScheduler.Start() *)
  | ServerStarted          (* http.ListenAndServe(":8899", handler) *)
  | Fatal (msg : string).  (* log.Fatal: the process exits *)

(** How start-up ends: the process serves, with a committed generation
    in the store file, or it has exited. *)
Inductive started : Type :=
  | Serving (generation : store)
  | Exited.

Record boot : Type := mk_boot {
  trace : list event;
  final : started
}.

Definition die (tr : list event) (msg : string) : boot :=
  {| trace := tr ++ [Fatal msg]; final := Exited |}.

(** Lines 231-333: the schedule is parsed, the job registered, the
    scheduler started and the server started. *)
Definition schedule_and_serve (w : world) (configTime : string)
    (tr : list event) (generation : store) : boot :=
  match Str.split_on ":"%char configTime with
  | [h; m] =>
      match Atoi h with
      | Err _ => die tr "无效的小时数"
      | Ok hour =>
      if (hour <? 0) || (hour >? 23) then die tr "无效的小时数" else
      match Atoi m with
      | Err _ => die tr "无效的分钟数"
      | Ok minute =>
      if (minute <? 0) || (minute >? 59) then die tr "无效的分钟数" else
      match AddFunc_fault w with
      | Some e => die tr ("创建定时任务失败: " +:+ error_message e)
      | None =>
      let tr1 := tr ++ [CronStarted hour minute] in
      match Listen_fault w with
      | Some e => die (tr1 ++ [ServerStarted]) (error_message e)
      | None =>
          {| trace := tr1 ++ [ServerStarted]; final := Serving generation |}
      end end end end
  | _ => die tr "时间格式应为HH:MM"
  end.

Definition dbPath_of (exePath : string) : string :=
  Join (Dir exePath) "sql.db".

(** [main], up to the point where the server is listening. *)
Definition main (w : world) : boot :=
  match Executable w with
  | Err e => die [] ("无法获取可执行文件路径: " +:+ error_message e)
  | Ok exePath =>
  let exeDir := Dir exePath in
  let configEnvPath := Join exeDir "config.env" in
  match godotenv_Load w configEnvPath with
  | Some e => die [] ("加载配置文件失败: " +:+ error_message e)
  | None =>
  match processPath w (Getenv w "path") with
  | Err e => die [] ("路径处理错误:" +:+ error_message e)
  | Ok configPath =>
  let configTime := Getenv w "time" in
  if String.eqb configTime "" then die [] "配置文件中缺少time字段" else
  let dbPath := dbPath_of exePath in
  match Stat w dbPath with
  | StatNotExist =>
      match initDB w with
      | Err e => die [] ("数据库初始化失败:" +:+ error_message e)
      | Ok fresh =>
          let r := Scan.scanAndSave (first_scan w) fresh in
          match Scan.how r with
          | Scan.Exit _ err =>
              die [InitDB; ScanStarted] (error_message err)
          | Scan.Done =>
              schedule_and_serve w configTime
                [InitDB; ScanStarted; ScanDone] (Scan.committed_after r)
          end
      end
  | _ => schedule_and_serve w configTime [] (existing w)
  end end end end.

(** ** The serving process *)

(** The process once it serves: the committed generation, and how many
    [scanAndSave] goroutines are running. *)
Record process : Type := mk_process {
  generation : store;
  scanning : nat;
  alive : bool
}.

Definition after_boot (g : store) : process :=
  {| generation := g; scanning := 0; alive := true |}.

(** ** The scheduler *)

(** A job of the scheduler: what a run of it does to the process. *)
Definition Job : Type := process -> process.

(** A [*cron.Cron] of [github.com/robfig/cron/v3], as far as the program
    uses the library: whether the chain of job wrappers that [cron.New]
    was given holds [cron.SkipIfStillRunning], the jobs of the entries,
    and whether [Start] has been called.  The schedule of an entry only
    decides when the entry is due, which the model leaves to the
    sequence of happenings. *)
Record Cron : Type := mk_Cron {
  skips_running : bool;
  entries : list Job;
  running : bool
}.

(** [cron.New(opts...)]; called without option, as in [main], it gives a
    scheduler whose chain is empty. *)
Definition cron_New (skip_if_still_running : bool) : Cron :=
  {| skips_running := skip_if_still_running; entries := [];
     running := false |}.

(** [c.AddFunc(spec, cmd)] for a [spec] that parses. *)
Definition cron_AddFunc (c : Cron) (cmd : Job) : Cron :=
  {| skips_running := skips_running c; entries := entries c ++ [cmd];
     running := running c |}.

(** [c.Start()] *)
Definition cron_Start (c : Cron) : Cron :=
  {| skips_running := skips_running c; entries := entries c;
     running := true |}.

(** The job that [main] registers (lines 251-258): it starts
    [scanAndSave] on a goroutine and waits for it. *)
Definition scan_job : Job :=
  fun p =>
    {| generation := generation p; scanning := S (scanning p);
       alive := alive p |}.

(** The scheduler of [main] (lines 249-262). *)
Definition cronScheduler : Cron :=
  cron_Start (cron_AddFunc (cron_New false) scan_job).

(** An entry that is due: the scheduler runs its job on a goroutine of
    its own, through the chain; [SkipIfStillRunning] drops the run when
    an earlier run of the job has not returned. *)
Definition run_entry (c : Cron) (cmd : Job) (p : process) : process :=
  if skips_running c && negb (Nat.eqb (scanning p) 0) then p else cmd p.

(** The time of the entries of [c] is reached. *)
Definition cron_fire (c : Cron) (p : process) : process :=
  if running c then fold_left (fun q cmd => run_entry c cmd q) (entries c) p
  else p.

(** What happens to a serving process.  [CronFires]: the daily time is
    reached, and the scheduler of [main] runs its entry.
    [ScanReturns e]: a running [scanAndSave] comes to its end, having
    met [e]; it commits a new generation, or it ends the process.
    [Request]: a request to [/get] is answered. *)
Inductive happening : Type :=
  | CronFires
  | ScanReturns (e : Scan.env)
  | Request (fault : option string) (query : Server.Values).

Definition step (p : process) (h : happening) : process :=
  if negb (alive p) then p else
  match h with
  | CronFires => cron_fire cronScheduler p
  | ScanReturns e =>
      match scanning p with
      | O => p
      | S n =>
          let r := Scan.scanAndSave e (generation p) in
          match Scan.how r with
          | Scan.Done =>
              {| generation := Scan.committed_after r; scanning := n;
                 alive := true |}
          | Scan.Exit _ _ =>
              {| generation := Scan.committed_after r; scanning := 0;
                 alive := false |}
          end
      end
  | Request _ _ => p
  end.

(** The answer to a request: none from a process that has exited. *)
Definition answer (p : process) (fault : option string)
    (query : Server.Values) : option Server.Response :=
  if alive p then Some (Server.get_handler (generation p) fault query)
  else None.

(** The process after each of a sequence of happenings, oldest first. *)
Fixpoint states (p : process) (hs : list happening) : list process :=
  match hs with
  | [] => [p]
  | h :: rest => p :: states (step p h) rest
  end.

(** Every trigger of the sequence finds no rebuild running. *)
Fixpoint triggers_apart (p : process) (hs : list happening) : bool :=
  match hs with
  | [] => true
  | h :: rest =>
      match h with
      | CronFires => Nat.eqb (scanning p) 0
      | _ => true
      end && triggers_apart (step p h) rest
  end.

End Main.

(* ===================================================================== *)
(** * The example of the specification *)
(* ===================================================================== *)

Module Examples.
Import Sqlite Os.

Definition a_directory : FileInfo :=
  {| Size := 4096; ModTime := mk_Time 2024 1 2 10 30 0 0; IsDir := true |}.

(** A root that holds [/data/report.pdf] (120 bytes, modified
    2024-01-01T00:00:00Z) and [/data/img/photo.png], as a walk visits
    it. *)
Definition example_walk : list visit :=
  [Visit "/data" a_directory;
   Visit "/data/img" a_directory;
   Visit "/data/img/photo.png"
     {| Size := 2048; ModTime := mk_Time 2024 1 2 10 30 0 0;
        IsDir := false |};
   Visit "/data/report.pdf"
     {| Size := 120; ModTime := mk_Time 2024 1 1 0 0 0 0;
        IsDir := false |}].

(** The same root visited in another order. *)
Definition example_walk_reordered : list visit :=
  [Visit "/data" a_directory;
   Visit "/data/report.pdf"
     {| Size := 120; ModTime := mk_Time 2024 1 1 0 0 0 0;
        IsDir := false |};
   Visit "/data/img" a_directory;
   Visit "/data/img/photo.png"
     {| Size := 2048; ModTime := mk_Time 2024 1 2 10 30 0 0;
        IsDir := false |}].

Definition example_env : Scan.env :=
  {| Scan.begin_fault := None; Scan.faults := no_faults;
     Scan.commit_fault := None;
     Scan.first_walk := example_walk; Scan.second_walk := example_walk |}.

Definition example_env_reordered : Scan.env :=
  {| Scan.begin_fault := None; Scan.faults := no_faults;
     Scan.commit_fault := None;
     Scan.first_walk := example_walk_reordered;
     Scan.second_walk := example_walk_reordered |}.

(** The same rebuild with a write that fails after one file has been
    inserted: statements 0 and 1 clear the tables, 2 and 3 insert
    [/data/img] and [photo.png], and statement 4, the insert of
    [/data], fails. *)
Definition failing_env : Scan.env :=
  {| Scan.begin_fault := None;
     Scan.faults := Scan.fail_at 4 "disk I/O error";
     Scan.commit_fault := None;
     Scan.first_walk := example_walk; Scan.second_walk := example_walk |}.

(** The index that the rebuild of the example commits. *)
Definition example_store : store :=
  {| paths := [mk_path_row 1 "/data/img"; mk_path_row 2 "/data"];
     files := [mk_file_row 1 1 "photo.png" 2048 "2024-01-02T10:30:00Z";
               mk_file_row 2 2 "report.pdf" 120 "2024-01-01T00:00:00Z"] |}.

(** An older generation of the index. *)
Definition old_store : store :=
  {| paths := [mk_path_row 7 "/old"];
     files := [mk_file_row 3 7 "notes.txt" 10 "2023-05-05T08:00:00Z"] |}.

(** A world in which the program is installed in [/opt/nas], with
    [path=/data] and [time=23:00] in its [config.env], and in which
    [sql.db] is there or not. *)
Definition example_world (store_there : bool) : Main.world :=
  {| Main.Executable := Ok "/opt/nas/Nas-Everything-search";
     Main.godotenv_Load := fun _ => None;
     Main.Getenv := fun k =>
       if String.eqb k "path" then "/data"
       else if String.eqb k "time" then "23:00" else "";
     Main.Getwd := Ok "/opt/nas";
     Main.Stat := fun name =>
       if String.eqb name "/opt/nas/sql.db"
       then (if store_there then Main.StatOk else Main.StatNotExist)
       else Main.StatOk;
     Main.existing := old_store;
     Main.initDB_fault := None;
     Main.first_scan := example_env;
     Main.AddFunc_fault := None;
     Main.Listen_fault := None |}.

End Examples.

(* ===================================================================== *)
(** * What a rebuild stores, said without the cache *)
(* ===================================================================== *)

Module Plain.
Import Sqlite Os Filepath.

(** The id of the first row of [paths] whose path is [dir]. *)
Fixpoint lookup_path (ps : list path_row) (dir : string) : option Z :=
  match ps with
  | [] => None
  | r :: rest =>
      if String.eqb (p_path r) dir then Some (p_id r)
      else lookup_path rest dir
  end.

(** The row of [dir], looked up in the table itself and added when it
    is not there. *)
Definition upsert_path (db : store) (dir : string) : store * Z :=
  match lookup_path (paths db) dir with
  | Some id => (db, id)
  | None =>
      let id := next_rowid (map p_id (paths db)) in
      ({| paths := paths db ++ [mk_path_row id dir]; files := files db |},
       id)
  end.

(** What one visit adds to the tables. *)
Definition store_visit (db : store) (v : visit) : store :=
  match v with
  | VisitErr _ _ => db
  | Visit path info =>
      if IsDir info then db
      else
        let '(db1, id) := upsert_path db (ToSlash (Dir path)) in
        insert_file db1 id (Base path) (Size info)
          (Format_RFC3339 (ModTime info))
  end.

(** The index of a walk, built from empty tables. *)
Definition index_of (visits : list visit) : store :=
  fold_left store_visit visits empty_store.

(** A visit of a regular file that could be read. *)
Definition regular (v : visit) : bool :=
  match v with
  | VisitErr _ _ => false
  | Visit _ info => negb (IsDir info)
  end.

Definition regular_files (visits : list visit) : nat :=
  length (List.filter regular visits).



(** The progress lines of a rebuild that has scanned [n] files. *)
Definition progress_lines (n : nat) (totalFiles : Z) : list Scan.log_line :=
  map (fun k => Scan.Printf_progress (1000 * Z.of_nat k) totalFiles)
      (seq 1 (n / 1000)).

(** A name as a walk gives it to a directory entry: not empty, without
    a separator, and neither [.] nor [..]. *)
Definition is_name (e : string) : bool :=
  negb (String.eqb e "") && negb (String.eqb e ".") &&
  negb (String.eqb e "..") && negb (Str.existsc IsPathSeparator e).

(** The rooted path whose elements are [elems]. *)
Definition rooted_path (elems : list string) : string :=
  "/" +:+ Str.join_with "/" elems.

(** [filepath.Join(dir, name)] for a clean rooted [dir], as a walk forms
    the path of an entry. *)
Definition entry_path (elems : list string) (name : string) : string :=
  rooted_path (elems ++ [name]).

(** The filename of a tuple, and the record that the handler makes of
    it. *)
Definition tuple_filename (t : string * string * Z * string) : string :=
  let '(_, filename, _, _) := t in filename.

Definition record_of_tuple (t : string * string * Z * string)
  : Server.FileInfo :=
  let '(path, filename, size, ct) := t in
  Server.mk_FileInfo path filename size ct.

(** The records that a search for [term] finds among the files of a
    walk, in the order of the walk. *)
Definition found_in_walk (visits : list visit) (term : string)
  : list Server.FileInfo :=
  map record_of_tuple
    (List.filter
       (fun t => like ("%" +:+ term +:+ "%") (tuple_filename t))
       (flat_map Scan.tuple_of visits)).

(** No statement before the [n]-th is one that the plan makes fail. *)
Definition all_pass (fp : fault_plan) (n : nat) : Prop :=
  forall k, (k < n)%nat -> fp k = None.

(** The transaction [t] was stopped by [e]: the last statement it was
    sent is the first that the plan makes fail, and [e] is its error. *)
Definition stopped_at_first_fault (fp : fault_plan) (t : txn) (e : error)
  : Prop :=
  exists n msg,
    sent t = S n /\ fp n = Some msg /\ e = ErrDriver msg /\ all_pass fp n.

(** How many statements a rebuild sends for a walk when none fails: the
    two that clear the tables and one for every row it stores. *)
Definition statements_of (visits : list Os.visit) : nat :=
  (2 + length (Sqlite.paths (index_of visits))
     + length (Sqlite.files (index_of visits)))%nat.

(** The rebuild meets a failure of the database: [db.Begin] fails, one
    of the statements that the rebuild sends fails, or [tx.Commit]
    fails. *)
Definition meets_failure (e : Scan.env) : Prop :=
  Scan.begin_fault e <> None \/
  (exists n msg,
     Scan.faults e n = Some msg /\
     (n < statements_of (Scan.second_walk e))%nat) \/
  Scan.commit_fault e <> None.

(** The path starts at the root. *)
Definition is_rooted (path : string) : bool :=
  match path with
  | EmptyString => false
  | String c _ => IsPathSeparator c
  end.

(** A clean rooted path: the rooted path of a list of names. *)
Definition clean_rooted (path : string) : Prop :=
  exists elems,
    Forall (fun e => is_name e = true) elems /\ path = rooted_path elems.

(** No colon occurs in [s]. *)
Definition colon_free (s : string) : bool :=
  negb (Str.existsc (fun c => Ascii.eqb c ":"%char) s).

(** The world of the example with another [time] in its [config.env]. *)
Definition world_with_time (time : string) (store_there : bool)
  : Main.world :=
  {| Main.Executable := Main.Executable (Examples.example_world store_there);
     Main.godotenv_Load := fun _ => None;
     Main.Getenv := fun k =>
       if String.eqb k "path" then "/data"
       else if String.eqb k "time" then time else "";
     Main.Getwd := Ok "/opt/nas";
     Main.Stat := Main.Stat (Examples.example_world store_there);
     Main.existing := Examples.old_store;
     Main.initDB_fault := None;
     Main.first_scan := Examples.example_env;
     Main.AddFunc_fault := None;
     Main.Listen_fault := None |}.

End Plain.

(* ===================================================================== *)
(** * Properties *)
(* ===================================================================== *)

(** ** Strings and LIKE *)

Section StringFacts.
Import Str Sqlite.

Lemma append_assoc (a b c : string) : (a +:+ b) +:+ c = a +:+ (b +:+ c).
Proof. induction a as [|x a IH]; simpl; [reflexivity | now rewrite IH]. Qed.






(** *** One character *)









(** *** Patterns on characters *)

Lemma like_chars_percent (p s : list N) :
  like_chars (37%N :: p) s =
  like_chars p s ||
  match s with
  | [] => false
  | _ :: s' => like_chars (37%N :: p) s'
  end.
Proof. destruct s; reflexivity. Qed.


(** A leading [%] lets the rest of the pattern start anywhere. *)
Lemma like_chars_percent_spec (p s : list N) :
  like_chars (37%N :: p) s = true <->
  exists pre post, s = pre ++ post /\ like_chars p post = true.
Proof.
  induction s as [|d s IH]; rewrite like_chars_percent, orb_true_iff.
  - split.
    + intros [H | H]; [|discriminate]. now exists [], [].
    + intros (pre & post & H & Hl). destruct pre; [|discriminate].
      simpl in H. subst post. now left.
  - rewrite IH. split.
    + intros [H | (pre & post & -> & Hl)].
      * now exists [], (d :: s).
      * now exists (d :: pre), post.
    + intros (pre & post & H & Hl). destruct pre as [|x pre]; simpl in H.
      * subst post. now left.
      * injection H as _ ->. right. now exists pre, post.
Qed.





(** *** Bytes and characters *)

Lemma existsc_append (f : ascii -> bool) (a b : string) :
  existsc f (a +:+ b) = existsc f a || existsc f b.
Proof.
  induction a as [|x a IH]; simpl; [reflexivity|].
  now rewrite IH, orb_assoc.
Qed.

Lemma nul_free_append (a b : string) :
  nul_free (a +:+ b) = nul_free a && nul_free b.
Proof. unfold nul_free. now rewrite existsc_append, negb_orb. Qed.

Lemma ascii_text_append (a b : string) :
  ascii_text (a +:+ b) = ascii_text a && ascii_text b.
Proof. unfold ascii_text. now rewrite existsc_append, negb_orb. Qed.

Lemma ascii_text_cons (c : ascii) (s : string) :
  ascii_text (String c s) = true <->
  (N_of_ascii c <? 128)%N = true /\ ascii_text s = true.
Proof.
  unfold ascii_text. simpl. rewrite negb_orb, andb_true_iff.
  rewrite N.ltb_antisym. reflexivity.
Qed.













(** *** Patterns on texts *)

Lemma bytes_append (a b : string) : bytes (a +:+ b) = bytes a ++ bytes b.
Proof. induction a as [|x a IH]; simpl; [reflexivity | now rewrite IH]. Qed.





(** [like] lets [%] alone match every text. *)
Lemma like_percent_all (s : string) : like "%" s = true.
Proof.
  unfold like. change (characters "%") with [37%N].
  apply (like_chars_percent_spec [] (characters s)). exists (characters s), [].
  split; [now rewrite app_nil_r | reflexivity].
Qed.





(** [_] stands for one character, not one byte; a byte that is not a
    character by itself is read as U+FFFD and so is not found inside a
    character; a NUL byte ends the pattern; only ASCII letters are
    folded. *)
Example like_reads_characters :
  like "%a_b%" "aéb" = true /\
  like "%a__b%" "aéb" = false /\
  like ("%" +:+ String (ascii_of_N 195) "" +:+ "%") "aéb" = false /\
  like ("%" +:+ String zero "" +:+ "%") "photo.png" = true /\
  like "%É%" "é" = false /\
  like "%R%" "r" = true.
Proof. vm_compute. repeat split. Qed.

End StringFacts.

(** ** The query path *)

Section QueryFacts.
Import Str Sqlite Server Examples.

Lemma collect_ok (rows : list (string * string * Z * string))
    (s : slice FileInfo) :
  exists s', collect rows s = Ok s' /\
    elements s' =
    elements s ++
    map (fun '(path, filename, size, ct) => mk_FileInfo path filename size ct)
        rows.
Proof.
  revert s. induction rows as [|[[[a b] c] d] rows IH]; intros s.
  - exists s. split; [reflexivity|]. simpl. now rewrite app_nil_r.
  - simpl. destruct (IH (append s (mk_FileInfo a b c d))) as (s' & H & E).
    exists s'. split; [exact H|]. rewrite E.
    destruct s; simpl; [reflexivity|]. now rewrite <- app_assoc.
Qed.

Lemma collect_empty : collect [] nil_slice = Ok nil_slice.
Proof. reflexivity. Qed.

Lemma search_rows (db : store) (T : string) :
  search db T =
  map (fun '(path, filename, size, ct) => mk_FileInfo path filename size ct)
      (select_files_like db ("%" +:+ T +:+ "%")).
Proof.
  unfold search.
  destruct (collect_ok (select_files_like db ("%" +:+ T +:+ "%")) nil_slice)
    as (s' & -> & E).
  exact E.
Qed.



(** The answer to a well-formed request when the read succeeds. *)
Lemma get_handler_ok (db : store) (query : Values) :
  Get query "key" <> "" -> Get query "type" = "file" ->
  exists files,
    get_handler db None query =
    {| status := StatusOK; content_type := "application/json";
       content := Json (Encode files) |} /\
    elements files = search db (Get query "key") /\
    collect (select_files_like db ("%" +:+ Get query "key" +:+ "%"))
      nil_slice = Ok files.
Proof.
  intros Hk Ht.
  destruct (collect_ok
              (select_files_like db ("%" +:+ Get query "key" +:+ "%"))
              nil_slice) as (s' & Hc & E).
  exists s'. split; [|split; [|exact Hc]].
  - unfold get_handler, handle_get. cbn [query_fault next_fault rows_Next].
    rewrite Ht. apply String.eqb_neq in Hk. rewrite Hk.
    cbn -[collect select_files_like String.append]. now rewrite Hc.
  - rewrite search_rows. exact E.
Qed.




(** C4.  A well-formed request whose term matches no filename is
    answered with status 200 and the JSON value [null], which is not
    the empty array: the slice that the handler encodes is still nil. *)
Theorem no_match_body_is_null :
  get_handler example_store None [("key", "xyz"); ("type", "file")] =
  {| status := 200; content_type := "application/json";
     content := Json JNull |} /\
  search example_store "xyz" = [] /\
  Json JNull <> Json (JArray []).
Proof. repeat split. discriminate. Qed.

Lemma no_match_is_null_in_general (db : store) (query : Values) :
  Get query "key" <> "" -> Get query "type" = "file" ->
  (forall f, In f (files db) ->
     like ("%" +:+ Get query "key" +:+ "%") (f_filename f) = false) ->
  get_handler db None query =
  {| status := StatusOK; content_type := "application/json";
     content := Json JNull |}.
Proof.
  intros Hk Ht Hno.
  destruct (get_handler_ok db query Hk Ht) as (files & -> & _ & Hc).
  assert (Hsel : select_files_like db ("%" +:+ Get query "key" +:+ "%") = []).
  { unfold select_files_like. induction (Sqlite.files db) as [|f l IH]; [reflexivity|].
    cbn [flat_map]. rewrite (Hno f) by (now left). cbn [List.app]. apply IH.
    intros g Hg. apply Hno. now right. }
  rewrite Hsel in Hc. cbn [collect] in Hc. injection Hc as <-. reflexivity.
Qed.

Lemma Get_missing (query : Values) (key : string) :
  (forall v, ~ In (key, v) query) -> Get query key = "".
Proof.
  induction query as [|[k v] rest IH]; intros H; [reflexivity|]. simpl.
  destruct (String.eqb_spec k key) as [->|_].
  - exfalso. apply (H v). now left.
  - apply IH. intros v' Hin. apply (H v'). now right.
Qed.

(** C5.  The answer is 400 exactly when [key] is missing or empty,
    [type] is missing or empty, or [type] is not ["file"]; so it is for
    [key=&type=file], for [key=a&type=dir] and for a request without
    [key]. *)
Theorem bad_request_exactly (db : store) (fault : option string)
    (query : Values) :
  (status (get_handler db fault query) = StatusBadRequest <->
   (Get query "key" = "" \/ Get query "type" = "" \/
    Get query "type" <> "file")) /\
  status (get_handler db fault [("key", ""); ("type", "file")]) = 400 /\
  status (get_handler db fault [("key", "a"); ("type", "dir")]) = 400 /\
  status (get_handler db fault [("type", "file")]) = 400 /\
  status (get_handler db fault [("key", "a")]) = 400.
Proof.
  split; [|repeat split].
  destruct (collect_ok
              (select_files_like db ("%" +:+ Get query "key" +:+ "%"))
              nil_slice) as (s' & Hc & _).
  unfold get_handler, handle_get. cbn [query_fault next_fault rows_Next].
  destruct (String.eqb_spec (Get query "key") "") as [Hk|Hk].
  { split; auto. }
  destruct (String.eqb_spec (Get query "type") "") as [Ht|Ht].
  { split; auto. }
  cbn -[collect select_files_like String.append String.eqb].
  destruct (String.eqb_spec (Get query "type") "file") as [Hf|Hf].
  - split.
    + intros H. exfalso. destruct fault as [msg|];
        cbn -[collect select_files_like String.append] in H.
      * discriminate.
      * rewrite Hc in H. discriminate.
    + intros [H | [H | H]]; contradiction.
  - split; auto.
Qed.

End QueryFacts.

(** ** The tables *)

Section StoreFacts.
Import Sqlite.

Lemma next_rowid_above (ids : list Z) (id : Z) :
  In id ids -> id < next_rowid ids.
Proof.
  unfold next_rowid. induction ids as [|x ids IH]; simpl; [contradiction|].
  intros [-> | H]; [lia|]. specialize (IH H). lia.
Qed.

Lemma next_rowid_fresh (ids : list Z) : ~ In (next_rowid ids) ids.
Proof. intros H. apply next_rowid_above in H. lia. Qed.

Lemma no_orphans_spec (db : store) :
  no_orphans db = true <->
  forall f, In f (files db) ->
    exists p, In p (paths db) /\ p_id p = f_path_id f.
Proof.
  unfold no_orphans. rewrite forallb_forall. split; intros H f Hf.
  - apply H in Hf. apply existsb_exists in Hf as (p & Hp & E).
    exists p. split; [exact Hp | now apply Z.eqb_eq].
  - destruct (H f Hf) as (p & Hp & E). apply existsb_exists.
    exists p. split; [exact Hp | now apply Z.eqb_eq].
Qed.

Lemma tuples_joined (db : store) :
  tuples db = flat_map (joined_rows (paths db)) (files db).
Proof.
  unfold tuples, select_files_like.
  induction (files db) as [|f l IH]; [reflexivity|].
  cbn [flat_map]. now rewrite like_percent_all, IH.
Qed.

Lemma joined_rows_app (ps qs : list path_row) (f : file_row) :
  joined_rows (ps ++ qs) f = joined_rows ps f ++ joined_rows qs f.
Proof. unfold joined_rows. apply flat_map_app. Qed.

Lemma joined_rows_none (ps : list path_row) (f : file_row) :
  ~ In (f_path_id f) (map p_id ps) -> joined_rows ps f = [].
Proof.
  unfold joined_rows. induction ps as [|p ps IH]; intros H; [reflexivity|].
  cbn [flat_map]. destruct (Z.eqb_spec (f_path_id f) (p_id p)) as [E|_].
  - exfalso. apply H. left. now symmetry.
  - apply IH. intros Hin. apply H. now right.
Qed.

(** With distinct ids a file row joins with exactly one row of
    [paths]. *)
Lemma joined_rows_one (ps : list path_row) (f : file_row) (dir : string) :
  List.NoDup (map p_id ps) -> In (mk_path_row (f_path_id f) dir) ps ->
  joined_rows ps f = [(dir, f_filename f, f_size f, f_create_time f)].
Proof.
  induction ps as [|p ps IH]; intros Hnd Hin; [contradiction|].
  cbn [map] in Hnd. apply List.NoDup_cons_iff in Hnd as [Hp Hnd].
  change (joined_rows (p :: ps) f)
    with ((if f_path_id f =? p_id p
           then [(p_path p, f_filename f, f_size f, f_create_time f)]
           else []) ++ joined_rows ps f).
  destruct Hin as [-> | Hin].
  - cbn [p_id p_path]. rewrite Z.eqb_refl.
    rewrite joined_rows_none; [reflexivity | exact Hp].
  - destruct (Z.eqb_spec (f_path_id f) (p_id p)) as [E|_].
    + exfalso. apply Hp. rewrite <- E.
      change (f_path_id f) with (p_id (mk_path_row (f_path_id f) dir)).
      now apply in_map.
    + now apply IH.
Qed.

(** A new row of [paths] with a fresh id joins with no file row that
    has its directory already. *)
Lemma tuples_insert_path (db : store) (id : Z) (dir : string) :
  no_orphans db = true -> ~ In id (map p_id (paths db)) ->
  tuples {| paths := paths db ++ [mk_path_row id dir]; files := files db |}
  = tuples db.
Proof.
  intros Ho Hfresh. rewrite !tuples_joined. cbn [paths files].
  rewrite no_orphans_spec in Ho.
  induction (files db) as [|f l IH] in Ho |- *; [reflexivity|].
  cbn [flat_map]. rewrite IH by (intros g Hg; apply Ho; now right).
  f_equal. rewrite joined_rows_app.
  rewrite (joined_rows_none [mk_path_row id dir]).
  - apply app_nil_r.
  - cbn. intros [E | []]. destruct (Ho f (or_introl eq_refl)) as (p & Hp & Hid).
    apply Hfresh. rewrite E, <- Hid. now apply in_map.
Qed.

Lemma tuples_insert_file (db : store) (pathID : Z) (dir filename : string)
    (size : Z) (ct : string) :
  List.NoDup (map p_id (paths db)) -> In (mk_path_row pathID dir) (paths db) ->
  tuples (insert_file db pathID filename size ct)
  = tuples db ++ [(dir, filename, size, ct)].
Proof.
  intros Hnd Hin. rewrite !tuples_joined. unfold insert_file.
  cbn [paths files]. rewrite flat_map_app. f_equal. cbn [flat_map].
  rewrite app_nil_r.
  apply (joined_rows_one (paths db)
           (mk_file_row (next_rowid (map f_id (files db))) pathID filename
              size ct) dir Hnd Hin).
Qed.

Lemma no_orphans_insert_file (db : store) (pathID : Z) (dir filename : string)
    (size : Z) (ct : string) :
  no_orphans db = true -> In (mk_path_row pathID dir) (paths db) ->
  no_orphans (insert_file db pathID filename size ct) = true.
Proof.
  intros Ho Hin. apply no_orphans_spec. rewrite no_orphans_spec in Ho.
  unfold insert_file. cbn [paths files]. intros f Hf.
  apply in_app_or in Hf as [Hf | [<- | []]].
  - now apply Ho.
  - exists (mk_path_row pathID dir). now split.
Qed.

Lemma no_orphans_more_paths (db : store) (extra : list path_row) :
  no_orphans db = true ->
  no_orphans {| paths := paths db ++ extra; files := files db |} = true.
Proof.
  intros Ho. apply no_orphans_spec. rewrite no_orphans_spec in Ho.
  cbn [paths files]. intros f Hf. destruct (Ho f Hf) as (p & Hp & E).
  exists p. split; [apply in_or_app; now left | exact E].
Qed.

(** What the insert into [paths] does, by whether the directory is
    there. *)
Lemma insert_or_ignore_path_new (db : store) (dir : string) :
  (forall id, ~ In (mk_path_row id dir) (paths db)) ->
  insert_or_ignore_path db dir =
  ({| paths := paths db ++ [mk_path_row (next_rowid (map p_id (paths db))) dir];
      files := files db |},
   Some (next_rowid (map p_id (paths db)))).
Proof.
  intros Hnew. unfold insert_or_ignore_path.
  destruct (existsb _ (paths db)) eqn:Hex; [|reflexivity].
  apply existsb_exists in Hex as ([id d] & Hin & E).
  cbn in E. apply String.eqb_eq in E. subst d. now destruct (Hnew id).
Qed.

Lemma run_cases {A : Type} (fp : fault_plan) (t : txn)
    (stmt : store -> store * A) :
  (exists msg, fp (sent t) = Some msg /\
     run fp t stmt =
     ({| view := view t; sent := S (sent t); hist := hist t |},
      Err (ErrDriver msg))) \/
  (fp (sent t) = None /\
   run fp t stmt =
   ({| view := fst (stmt (view t)); sent := S (sent t);
       hist := fst (stmt (view t)) :: hist t |},
    Ok (snd (stmt (view t)))) /\
   run no_faults t stmt = run fp t stmt).
Proof.
  unfold run, no_faults. destruct (fp (sent t)) as [msg|].
  - left. now exists msg.
  - right. destruct (stmt (view t)). auto.
Qed.

End StoreFacts.

(** ** The rebuild *)

Section ScanFacts.
Import Sqlite Os Filepath Scan.

(* Splits the conjunctions of a goal and nothing else. *)
Ltac conjs :=
  unfold well_formed;
  repeat match goal with |- _ /\ _ => split end;
  cbn [tx pathCache scannedFiles log view hist sent paths files].

Lemma history_clean_step (db0 : store) (t : txn) (db' : store) (n : nat) :
  history_clean db0 t -> no_orphans db' = true ->
  history_clean db0 {| view := db'; sent := n; hist := db' :: hist t |}.
Proof.
  intros (new & Hh & Hall) Ho. exists (db' :: new). cbn [hist].
  split; [now rewrite Hh | now constructor].
Qed.

Lemma first_walk_never_fails (vs : list visit) (n : Z) :
  snd (Walk vs count_callback n) = None.
Proof.
  revert n. induction vs as [|v vs IH]; intros n; [reflexivity|].
  cbn [Walk]. destruct v as [path info | path err]; cbn [count_callback].
  - destruct (IsDir info); apply IH.
  - apply IH.
Qed.

(** The cache lookup and the insert on a miss keep the invariant and
    the tuples; the id they give is that of the row of [dir]; the only
    error is one of the driver. *)
Lemma path_id_of_spec (fp : fault_plan) (db0 : store) (s s' : state)
    (dir : string) (r : result Z) :
  well_formed db0 s -> path_id_of fp s dir = (s', r) ->
  well_formed db0 s' /\
  tuples (view (tx s')) = tuples (view (tx s)) /\
  scannedFiles s' = scannedFiles s /\ log s' = log s /\
  match r with
  | Ok id =>
      In (mk_path_row id dir) (paths (view (tx s'))) /\
      path_id_of no_faults s dir = (s', Ok id)
  | Err e => exists msg, e = ErrDriver msg
  end.
Proof.
  intros (Hc & Hnd & Ho & Hh) H. unfold path_id_of in *.
  destruct (pathCache s !! dir) as [id|] eqn:Hlook.
  - injection H as <- <-. conjs; trivial. now apply Hc.
  - assert (Hnew : forall id, ~ In (mk_path_row id dir) (paths (view (tx s)))).
    { intros id Hin. apply Hc in Hin. congruence. }
    destruct (run_cases fp (tx s) (fun db => insert_or_ignore_path db dir))
      as [(msg & _ & Hrun) | (_ & Hrun & Hnf)].
    + rewrite Hrun in H. cbn [Row_Scan] in H. injection H as <- <-.
      cbn [tx pathCache view hist scannedFiles log].
      conjs; trivial. now exists msg.
    + rewrite Hnf, Hrun. rewrite Hrun in H.
      rewrite (insert_or_ignore_path_new _ _ Hnew) in *.
      cbn [fst snd Row_Scan] in *. injection H as <- <-.
      cbn [tx pathCache view hist scannedFiles log paths files].
      set (id := next_rowid (map p_id (paths (view (tx s))))).
      assert (Hfresh : ~ In id (map p_id (paths (view (tx s)))))
        by apply next_rowid_fresh.
      conjs; trivial.
      * intros dir0 id0. cbn [tx pathCache view paths]. split.
        -- intros Hl. destruct (decide (dir = dir0)) as [<-|Hne].
           ++ rewrite lookup_insert_eq in Hl. injection Hl as <-.
              apply in_or_app. right. now left.
           ++ rewrite lookup_insert_ne in Hl by exact Hne.
              apply in_or_app. left. now apply Hc.
        -- intros Hin. apply in_app_or in Hin as [Hin | [E | []]].
           ++ destruct (decide (dir = dir0)) as [<-|Hne].
              ** now destruct (Hnew id0).
              ** rewrite lookup_insert_ne by exact Hne. now apply Hc.
           ++ injection E as <- <-. apply lookup_insert_eq.
      * rewrite map_app. apply List.NoDup_app; trivial.
        -- cbn. constructor; [intros [] | constructor].
        -- intros a Ha [<- | []]. contradiction.
      * now apply (no_orphans_more_paths (view (tx s))).
      * apply history_clean_step; trivial.
        now apply (no_orphans_more_paths (view (tx s))).
      * now apply tuples_insert_path.
      * apply in_or_app. right. now left.
Qed.

(** One call of the callback keeps the invariant; when it returns no
    error it has added the tuple of the visit and nothing else, and
    would have done the same had no statement been able to fail; the
    only error it returns is one of the driver. *)
Lemma scan_callback_spec (fp : fault_plan) (total : Z) (db0 : store)
    (v : visit) (s s' : state) (r : option error) :
  well_formed db0 s -> scan_callback fp total v s = (s', r) ->
  well_formed db0 s' /\
  match r with
  | None =>
      tuples (view (tx s')) = tuples (view (tx s)) ++ tuple_of v /\
      scan_callback no_faults total v s = (s', None)
  | Some e => exists msg, e = ErrDriver msg
  end.
Proof.
  intros Hwf H. unfold scan_callback in *. unfold tuple_of.
  destruct v as [path info | path err].
  2:{ injection H as <- <-. now rewrite app_nil_r. }
  destruct (IsDir info).
  { injection H as <- <-. now rewrite app_nil_r. }
  cbn zeta in *.
  destruct (path_id_of fp s (ToSlash (Dir path))) as [s1 [pathID | e]] eqn:Hp.
  2:{ injection H as <- <-.
      destruct (path_id_of_spec _ _ _ _ _ _ Hwf Hp) as (Hwf1 & _ & _ & _ & He).
      now split. }
  destruct (path_id_of_spec _ _ _ _ _ _ Hwf Hp)
    as ((Hc & Hnd & Ho & Hh) & Ht & Hn & Hl & Hin & Hnf).
  rewrite Hnf.
  match type of H with
  | context [run fp (tx s1) ?stmt] =>
      destruct (run_cases fp (tx s1) stmt)
        as [(msg & _ & Hrun) | (_ & Hrun & Hrun')];
      [ rewrite Hrun in H | rewrite Hrun', Hrun; rewrite Hrun in H ]
  end.
  - injection H as <- <-. split; [|now exists msg].
    conjs; trivial.
  - cbn [fst snd] in *. injection H as <- <-.
    conjs; trivial.
    + eapply no_orphans_insert_file; eauto.
    + apply history_clean_step; trivial.
      eapply no_orphans_insert_file; eauto.
    + rewrite <- Ht. now apply tuples_insert_file.
Qed.

Lemma walk_spec (fp : fault_plan) (total : Z) (db0 : store)
    (vs : list visit) (s s' : state) (r : option error) :
  well_formed db0 s -> Walk vs (scan_callback fp total) s = (s', r) ->
  well_formed db0 s' /\
  match r with
  | None =>
      tuples (view (tx s')) =
        tuples (view (tx s)) ++ flat_map tuple_of vs /\
      Walk vs (scan_callback no_faults total) s = (s', None)
  | Some e => exists msg, e = ErrDriver msg
  end.
Proof.
  revert s. induction vs as [|v vs IH]; intros s Hwf H; cbn [Walk] in *.
  - injection H as <- <-. now rewrite app_nil_r.
  - destruct (scan_callback fp total v s) as [s1 [e|]] eqn:Hcb.
    + injection H as <- <-.
      apply (scan_callback_spec _ _ _ _ _ _ _ Hwf Hcb).
    + destruct (scan_callback_spec _ _ _ _ _ _ _ Hwf Hcb) as (Hwf1 & Ht & Hnf).
      rewrite Hnf. destruct (IH s1 Hwf1 H) as (Hwf' & Hr).
      split; [exact Hwf'|]. destruct r as [e|]; [exact Hr|].
      destruct Hr as [Ht' Hnf']. split; [|exact Hnf'].
      cbn [flat_map]. now rewrite Ht', Ht, app_assoc.
Qed.

Lemma walk_states_spec (fp : fault_plan) (total : Z) (db0 : store)
    (vs : list visit) (s st : state) :
  well_formed db0 s ->
  In st (Walk_states vs (scan_callback fp total) s) ->
  well_formed db0 st.
Proof.
  revert s. induction vs as [|v vs IH]; intros s Hwf Hin; cbn in Hin.
  - destruct Hin as [<- | []]. exact Hwf.
  - destruct Hin as [<- | Hin]; [exact Hwf|].
    destruct (scan_callback fp total v s) as [s1 r] eqn:Hcb.
    pose proof (proj1 (scan_callback_spec _ _ _ _ _ _ _ Hwf Hcb)) as Hwf1.
    destruct r as [e|].
    + destruct Hin as [<- | []]. exact Hwf1.
    + now apply (IH s1).
Qed.

(** The states between the calls end with the state the walk ends in. *)
Lemma walk_states_last {S : Type} (vs : list visit)
    (fn : visit -> S -> S * option error) (s d : S) :
  List.last (Walk_states vs fn s) d = fst (Walk vs fn s).
Proof.
  revert s. induction vs as [|v vs IH]; intros s; [reflexivity|].
  cbn [Walk_states Walk]. destruct (fn v s) as [s1 [e|]] eqn:Hf.
  - reflexivity.
  - rewrite <- IH. destruct vs; cbn [Walk_states]; reflexivity.
Qed.

Lemma clear_tables_spec (fp : fault_plan) (db : store) (t1 : txn)
    (r : option error) :
  clear_tables fp (Begin db) = (t1, r) ->
  history_clean db t1 /\
  match r with
  | None =>
      view t1 = empty_store /\
      clear_tables no_faults (Begin db) = (t1, None)
  | Some e => exists msg, e = ErrDriver msg
  end.
Proof.
  unfold clear_tables. intros H.
  destruct (run_cases fp (Begin db) (fun d => (delete_files d, tt)))
    as [(msg & _ & Hrun) | (_ & Hrun & Hnf)].
  { rewrite Hrun in H. injection H as <- <-. split; [|now exists msg].
    now exists []. }
  rewrite Hnf, Hrun. rewrite Hrun in H. cbn [fst snd] in *.
  match type of H with
  | context [run fp ?t ?stmt] =>
      destruct (run_cases fp t stmt)
        as [(msg & _ & Hrun2) | (_ & Hrun2 & Hnf2)];
      [ rewrite Hrun2 in H | rewrite Hnf2, Hrun2; rewrite Hrun2 in H ]
  end.
  - injection H as <- <-. split; [|now exists msg].
    exists [delete_files db]. split; [reflexivity|]. now constructor.
  - injection H as <- <-. cbn [fst snd view]. split; [|now split].
    exists [empty_store; delete_files db]. split; [reflexivity|].
    repeat constructor.
Qed.

Lemma start_state_well_formed (db : store) (t1 : txn) (lg : list log_line) :
  view t1 = empty_store -> history_clean db t1 ->
  well_formed db (start_state t1 lg).
Proof.
  intros Hv Hh. unfold start_state. conjs; rewrite ?Hv; trivial.
  - intros dir id. cbn [tx pathCache view]. rewrite Hv, lookup_empty.
    split; [discriminate | intros []].
  - constructor.
Qed.

(** How a rebuild ends.  Either it ends the process with the error of
    the driver that stopped it as the last line of the log, and the
    store keeps the generation it had; or it commits, and then no
    statement failed and the new generation is what the second walk
    stored. *)
Lemma scanAndSave_cases (e : env) (db : store) :
  (exists msg lg,
     how (scanAndSave e db) = Exit 1 (ErrDriver msg) /\
     committed_after (scanAndSave e db) = db /\
     out_log (scanAndSave e db) = lg ++ [Fatal (ErrDriver msg)] /\
     forall t, last_tx (scanAndSave e db) = Some t -> history_clean db t) \/
  (exists s,
     how (scanAndSave e db) = Done /\
     committed_after (scanAndSave e db) = view (tx s) /\
     last_tx (scanAndSave e db) = Some (tx s) /\
     well_formed db s /\
     tuples (view (tx s)) = flat_map tuple_of (second_walk e) /\
     scanAndSave (without_faults e) db = scanAndSave e db).
Proof.
  unfold scanAndSave at 1 2 3 4 5 6 7 8 9.
  change (sql_Open "sqlite") with (Ok tt : result unit).
  destruct (begin_fault e) as [msg|] eqn:Hb.
  { left. exists msg, [Println "开始扫描文件..."]. cbn. repeat split. discriminate. }
  destruct (clear_tables (faults e) (Begin db)) as [t1 r] eqn:Hclear.
  destruct (clear_tables_spec _ _ _ _ Hclear) as (Hh1 & Hr).
  destruct r as [err|].
  { left. destruct Hr as (msg & ->).
    exists msg, [Println "开始扫描文件..."]. cbn. repeat split.
    intros t Ht. now injection Ht as <-. }
  destruct Hr as (Hv & Hclear').
  pose proof (first_walk_never_fails (first_walk e) 0) as Hfirst.
  destruct (Walk (first_walk e) count_callback 0) as [total r1] eqn:Hw1.
  cbn [snd] in Hfirst. subst r1.
  set (lg := [Println "开始扫描文件..."] ++ [Printf_total total]).
  destruct (Walk (second_walk e) (scan_callback (faults e) total)
              (start_state t1 lg)) as [s r] eqn:Hw2.
  destruct (walk_spec _ _ db _ _ _ _
              (start_state_well_formed db t1 lg Hv Hh1) Hw2) as (Hwf & Hr).
  destruct r as [err|].
  { left. destruct Hr as (msg & ->). exists msg, (log s). cbn.
    repeat split. intros t Ht. injection Ht as <-. apply Hwf. }
  destruct Hr as (Ht & Hnf).
  destruct (commit_fault e) as [msg|] eqn:Hcf.
  { left. exists msg, (log s). cbn. repeat split.
    intros t Htx. injection Htx as <-. apply Hwf. }
  right. exists s. cbn [how committed_after last_tx Commit].
  repeat split; try apply Hwf.
  - rewrite Ht. cbn [start_state tx]. rewrite Hv. reflexivity.
  - unfold scanAndSave. change (sql_Open "sqlite") with (Ok tt : result unit).
    cbn [without_faults begin_fault faults commit_fault first_walk second_walk].
    rewrite Hclear', Hw1. fold lg. rewrite Hnf. reflexivity.
Qed.

Lemma scan_states_well_formed (e : env) (db : store) (s : state) :
  In s (scan_states e db) -> well_formed db s.
Proof.
  unfold scan_states. destruct (begin_fault e); [intros []|].
  destruct (clear_tables (faults e) (Begin db)) as [t1 r] eqn:Hclear.
  destruct (clear_tables_spec _ _ _ _ Hclear) as (Hh1 & Hr).
  destruct r as [err|]; [intros []|]. destruct Hr as (Hv & _).
  apply walk_states_spec. now apply start_state_well_formed.
Qed.

(** The transaction that [scanAndSave] ends with is that of the last of
    the states between the calls. *)
Lemma scan_states_last (e : env) (db : store) (t1 : txn) (d : state) :
  begin_fault e = None ->
  clear_tables (faults e) (Begin db) = (t1, None) ->
  last_tx (scanAndSave e db) = Some (tx (List.last (scan_states e db) d)).
Proof.
  intros Hb Hclear. unfold scanAndSave, scan_states.
  change (sql_Open "sqlite") with (Ok tt : result unit). rewrite Hb, Hclear.
  pose proof (first_walk_never_fails (first_walk e) 0) as Hfirst.
  destruct (Walk (first_walk e) count_callback 0) as [total r1] eqn:Hw1.
  cbn [snd fst] in *. subst r1. rewrite walk_states_last.
  change ([Println "开始扫描文件..."] ++ [Printf_total total])
    with [Println "开始扫描文件..."; Printf_total total].
  destruct (Walk (second_walk e) (scan_callback (faults e) total) _)
    as [s [err|]]; [reflexivity|].
  destruct (commit_fault e); reflexivity.
Qed.

(** A generation that a rebuild commits has no orphaned file row. *)
Lemma committed_generation_clean (e : env) (db : store) :
  how (scanAndSave e db) = Done ->
  no_orphans (committed_after (scanAndSave e db)) = true.
Proof.
  intros Hdone.
  destruct (scanAndSave_cases e db)
    as [(msg & lg & Hhow & _) | (s & _ & Hc & _ & Hwf & _)].
  - rewrite Hhow in Hdone. discriminate.
  - rewrite Hc. apply Hwf.
Qed.

End ScanFacts.


(** ** What the specification says of a rebuild *)

Section RebuildClaims.
Import Sqlite Os Filepath Scan Examples.

(** The rebuild of the example replaces the old generation by the index
    of the two files. *)
Example example_rebuild :
  how (scanAndSave example_env old_store) = Done /\
  committed_after (scanAndSave example_env old_store) = example_store /\
  out_log (scanAndSave example_env old_store) =
    [Println "开始扫描文件..."; Printf_total 2;
     Println "文件扫描完成，数据已更新"].
Proof. vm_compute. auto. Qed.

(** C2.  A rebuild that is aborted, at whatever statement, leaves in the
    store exactly the generation it started from; a rebuild that commits
    is one in which no statement failed, so a committed generation is
    never a partial one and has no orphaned file record; and a store
    without orphans before a rebuild has none after it, however the
    rebuild ends. *)
Theorem aborted_rebuild_keeps_generation (e : env) (db : store) :
  (forall code err,
     how (scanAndSave e db) = Exit code err ->
     committed_after (scanAndSave e db) = db) /\
  (how (scanAndSave e db) = Done ->
     scanAndSave e db = scanAndSave (without_faults e) db /\
     no_orphans (committed_after (scanAndSave e db)) = true) /\
  (no_orphans db = true ->
     no_orphans (committed_after (scanAndSave e db)) = true).
Proof.
  destruct (scanAndSave_cases e db)
    as [(msg & lg & Hhow & Hc & _) | (s & Hhow & Hc & _ & Hwf & _ & Hnf)].
  - repeat split.
    + intros _ _ _. exact Hc.
    + rewrite Hhow in H. discriminate.
    + rewrite Hhow in H. discriminate.
    + intros Ho. now rewrite Hc.
  - repeat split.
    + intros code err H. rewrite Hhow in H. discriminate.
    + now symmetry.
    + now apply committed_generation_clean.
    + intros _. rewrite Hc. apply Hwf.
Qed.

Lemma aborted_rebuild_keeps_generation_witness :
  how (scanAndSave failing_env old_store) = Exit 1 (ErrDriver "disk I/O error")
  /\ committed_after (scanAndSave failing_env old_store) = old_store
  /\ no_orphans (committed_after (scanAndSave failing_env old_store)) = true.
Proof.
  destruct (aborted_rebuild_keeps_generation failing_env old_store)
    as (Habort & _ & Hclean).
  split; [vm_compute; reflexivity|]. split.
  - apply (Habort 1 (ErrDriver "disk I/O error")). vm_compute. reflexivity.
  - apply Hclean. vm_compute. reflexivity.
Defined.

(** C6.  In every content that the tables go through during a rebuild,
    from its first statement on, and in the generation it commits, each
    file row has its row in [paths]; and between any two calls of the
    callback each file row points to the id that the cache holds for a
    directory whose row is in [paths]: the directory is inserted and
    cached before any file that refers to it. *)
Theorem rebuild_never_orphans (e : env) (db : store) :
  (forall t, last_tx (scanAndSave e db) = Some t ->
     exists new, hist t = new ++ [db] /\
                 Forall (fun d => no_orphans d = true) new) /\
  (how (scanAndSave e db) = Done ->
     no_orphans (committed_after (scanAndSave e db)) = true) /\
  (forall s f, In s (scan_states e db) -> In f (files (view (tx s))) ->
     exists dir,
       pathCache s !! dir = Some (f_path_id f) /\
       In (mk_path_row (f_path_id f) dir) (paths (view (tx s)))).
Proof.
  split; [|split].
  - destruct (scanAndSave_cases e db)
      as [(msg & lg & _ & _ & _ & Hh) | (s & _ & _ & Htx & Hwf & _)].
    + exact Hh.
    + intros t Ht. rewrite Htx in Ht. injection Ht as <-. apply Hwf.
  - apply committed_generation_clean.
  - intros s f Hs Hf.
    destruct (scan_states_well_formed e db s Hs) as (Hc & _ & Ho & _).
    rewrite no_orphans_spec in Ho. destruct (Ho f Hf) as ([id dir] & Hp & E).
    cbn [p_id] in E. subst id. exists dir. split; [now apply Hc | exact Hp].
Qed.

Lemma rebuild_never_orphans_witness :
  (exists t new,
     last_tx (scanAndSave failing_env old_store) = Some t /\
     hist t = new ++ [old_store] /\
     Forall (fun d => no_orphans d = true) new) /\
  no_orphans (committed_after (scanAndSave example_env old_store)) = true.
Proof.
  split.
  - destruct (scanAndSave failing_env old_store) as [c [t|] lg h] eqn:E;
      [|vm_compute in E; discriminate].
    destruct (proj1 (rebuild_never_orphans failing_env old_store) t)
      as (new & Hh & Hall).
    + rewrite E. reflexivity.
    + now exists t, new.
  - apply (proj1 (proj2 (rebuild_never_orphans example_env old_store))).
    vm_compute. reflexivity.
Defined.

(** C7.  Two rebuilds that commit and whose walks visit the same
    entries, in whatever order, leave the same tuples
    [(path, filename, size, timestamp)] in the store, whatever was there
    before; the tuples are those of the regular files visited.  In
    particular a second rebuild of an unchanged tree gives the tuples of
    the first. *)
Theorem rebuild_same_tuples (e1 e2 : env) (db1 db2 : store) :
  how (scanAndSave e1 db1) = Done ->
  how (scanAndSave e2 db2) = Done ->
  second_walk e1 ≡ₚ second_walk e2 ->
  tuples (committed_after (scanAndSave e1 db1)) =
    flat_map tuple_of (second_walk e1) /\
  tuples (committed_after (scanAndSave e1 db1)) ≡ₚ
    tuples (committed_after (scanAndSave e2 db2)) /\
  (forall x, In x (tuples (committed_after (scanAndSave e1 db1))) <->
             In x (tuples (committed_after (scanAndSave e2 db2)))).
Proof.
  intros H1 H2 Hperm.
  destruct (scanAndSave_cases e1 db1)
    as [(msg & lg & Hhow & _) | (s1 & _ & Hc1 & _ & _ & Ht1 & _)];
    [rewrite Hhow in H1; discriminate|].
  destruct (scanAndSave_cases e2 db2)
    as [(msg & lg & Hhow & _) | (s2 & _ & Hc2 & _ & _ & Ht2 & _)];
    [rewrite Hhow in H2; discriminate|].
  rewrite Hc1, Hc2, Ht1, Ht2.
  assert (Hp : flat_map tuple_of (second_walk e1) ≡ₚ
               flat_map tuple_of (second_walk e2)).
  { clear -Hperm. induction Hperm; cbn [flat_map].
    - reflexivity.
    - now apply Permutation_app_head.
    - rewrite !app_assoc. apply Permutation_app_tail, Permutation_app_comm.
    - etransitivity; eassumption. }
  split; [reflexivity|]. split; [exact Hp|].
  intros x. split; apply Permutation_in; [exact Hp | now symmetry].
Qed.

Lemma rebuild_same_tuples_witness :
  tuples (committed_after (scanAndSave example_env old_store)) ≡ₚ
  tuples (committed_after
            (scanAndSave example_env_reordered
               (committed_after (scanAndSave example_env old_store)))).
Proof.
  apply (rebuild_same_tuples example_env example_env_reordered).
  - vm_compute. reflexivity.
  - vm_compute. reflexivity.
  - cbn [second_walk example_env example_env_reordered].
    unfold example_walk, example_walk_reordered.
    apply perm_skip. symmetry.
    apply (Permutation_cons_append [_; _] _).
Defined.

(** C10.  Between any two calls of the callback the cache holds exactly
    the pairs of a directory and its id that [paths] holds; so on a
    cache miss the insert adds a row with an id that no row has, and
    returns it; and whatever ends a rebuild, it is never
    [sql.ErrNoRows]. *)
Theorem cache_mirrors_paths (e : env) (db : store) :
  (forall s, In s (scan_states e db) -> cache_agrees s) /\
  (forall s dir, In s (scan_states e db) -> pathCache s !! dir = None ->
     let id := next_rowid (map p_id (paths (view (tx s)))) in
     ~ In id (map p_id (paths (view (tx s)))) /\
     ~ In dir (map p_path (paths (view (tx s)))) /\
     insert_or_ignore_path (view (tx s)) dir =
     ({| paths := paths (view (tx s)) ++ [mk_path_row id dir];
         files := files (view (tx s)) |}, Some id)) /\
  (forall code err,
     how (scanAndSave e db) = Exit code err -> err <> ErrNoRows).
Proof.
  split; [|split].
  - intros s Hs. apply (scan_states_well_formed e db s Hs).
  - intros s dir Hs Hmiss id.
    destruct (scan_states_well_formed e db s Hs) as (Hc & _).
    assert (Hnew : forall i, ~ In (mk_path_row i dir) (paths (view (tx s)))).
    { intros i Hin. apply Hc in Hin. congruence. }
    split; [apply next_rowid_fresh|]. split.
    + intros Hin. apply in_map_iff in Hin as ([i d] & Hd & Hin).
      cbn in Hd. subst d. now apply (Hnew i).
    + now apply insert_or_ignore_path_new.
  - intros code err H.
    destruct (scanAndSave_cases e db)
      as [(msg & lg & Hhow & _) | (s & Hhow & _)];
      rewrite Hhow in H; [|discriminate].
    injection H as _ <-. discriminate.
Qed.

Lemma cache_mirrors_paths_witness :
  Forall cache_agrees (scan_states failing_env old_store) /\
  length (scan_states failing_env old_store) = 5%nat.
Proof.
  split; [|vm_compute; reflexivity].
  apply List.Forall_forall.
  exact (proj1 (cache_mirrors_paths failing_env old_store)).
Defined.

End RebuildClaims.

(** ** Start-up and the serving process *)

Section MainFacts.
Import Sqlite Scan Main Examples.

Lemma schedule_and_serve_cases (w : world) (configTime : string)
    (tr : list event) (g : store) :
  (exists msg, schedule_and_serve w configTime tr g = die tr msg) \/
  (exists h m msg,
     schedule_and_serve w configTime tr g =
     die ((tr ++ [CronStarted h m]) ++ [ServerStarted]) msg) \/
  (exists h m,
     schedule_and_serve w configTime tr g =
     {| trace := (tr ++ [CronStarted h m]) ++ [ServerStarted];
        final := Serving g |}).
Proof.
  unfold schedule_and_serve.
  destruct (Str.split_on ":" configTime) as [|h [|m [|x l]]];
    try (left; eexists; reflexivity).
  destruct (Atoi h) as [hour|]; [|left; eexists; reflexivity].
  destruct ((hour <? 0) || (hour >? 23)); [left; eexists; reflexivity|].
  destruct (Atoi m) as [minute|]; [|left; eexists; reflexivity].
  destruct ((minute <? 0) || (minute >? 59)); [left; eexists; reflexivity|].
  destruct (AddFunc_fault w); [left; eexists; reflexivity|].
  destruct (Listen_fault w).
  - right. left. now exists hour, minute, (error_message e).
  - right. right. now exists hour, minute.
Qed.

(** The ways start-up goes: it dies before it looks for the store; or
    the store is absent, it is initialised and the first scan runs, and
    start-up goes on only when the scan is done; or the store is there
    and start-up goes straight on with it. *)
Lemma main_cases (w : world) :
  (exists msg, main w = die [] msg) \/
  (exists exePath,
     Executable w = Ok exePath /\
     Stat w (dbPath_of exePath) = StatNotExist /\
     ((exists code err,
         how (scanAndSave (first_scan w) empty_store) = Exit code err /\
         main w = die [InitDB; ScanStarted] (error_message err)) \/
      (how (scanAndSave (first_scan w) empty_store) = Done /\
       main w =
       schedule_and_serve w (Getenv w "time")
         [InitDB; ScanStarted; ScanDone]
         (committed_after (scanAndSave (first_scan w) empty_store))))) \/
  (exists exePath,
     Executable w = Ok exePath /\
     Stat w (dbPath_of exePath) <> StatNotExist /\
     main w = schedule_and_serve w (Getenv w "time") [] (existing w)).
Proof.
  unfold main.
  destruct (Executable w) as [exePath|e]; [|left; eexists; reflexivity].
  destruct (godotenv_Load w _); [left; eexists; reflexivity|].
  destruct (processPath w _); [|left; eexists; reflexivity].
  destruct (String.eqb (Getenv w "time") ""); [left; eexists; reflexivity|].
  destruct (Stat w (dbPath_of exePath)) eqn:Hstat.
  - right. right. exists exePath. now rewrite Hstat.
  - unfold initDB. destruct (initDB_fault w); [left; eexists; reflexivity|].
    right. left. exists exePath. split; [reflexivity|]. split; [exact Hstat|].
    destruct (how (scanAndSave (first_scan w) empty_store)) as [|code err].
    + now right.
    + left. now exists code, err.
  - right. right. exists exePath. now rewrite Hstat.
Qed.

(** A trigger on a live process, computed from the scheduler of [main]. *)
Lemma step_trigger (p : process) :
  alive p = true ->
  step p CronFires =
  {| generation := generation p; scanning := S (scanning p); alive := true |}.
Proof.
  intros Ha. unfold step. rewrite Ha. cbn. unfold scan_job. now rewrite Ha.
Qed.

Lemma step_dead (p : process) (h : happening) :
  alive p = false -> step p h = p.
Proof. intros Ha. unfold step. now rewrite Ha. Qed.

Lemma step_scanning_bound (p : process) (h : happening) :
  (scanning p <= 1)%nat ->
  match h with CronFires => scanning p = 0%nat | _ => True end ->
  (scanning (step p h) <= 1)%nat.
Proof.
  intros Hle Hh. destruct (alive p) eqn:Ha; [|now rewrite step_dead].
  destruct h as [|e|fault q].
  - rewrite (step_trigger p Ha). cbn [scanning]. lia.
  - unfold step. rewrite Ha. cbn [negb].
    destruct (scanning p) as [|n] eqn:E; [rewrite E; lia|].
    destruct (how _); cbn [scanning]; lia.
  - unfold step. now rewrite Ha.
Qed.

Lemma step_without_trigger (p : process) (h : happening) :
  h <> CronFires -> scanning p = 0%nat -> scanning (step p h) = 0%nat.
Proof.
  intros Hh H0. unfold step. destruct (alive p); cbn [negb]; [|exact H0].
  destruct h as [|e|fault q]; [contradiction| |exact H0].
  rewrite H0. exact H0.
Qed.

(** C3 as the specification states it fails: a write that fails during
    a scheduled rebuild ends the process, which then answers no
    request. *)
Lemma failed_rebuild_counterexample :
  alive (step (after_boot old_store) CronFires) = true /\
  alive (step (step (after_boot old_store) CronFires)
           (ScanReturns failing_env)) = false /\
  answer (step (step (after_boot old_store) CronFires)
            (ScanReturns failing_env))
    None [("key", "notes"); ("type", "file")] = None.
Proof. vm_compute. auto. Qed.

Lemma states_without_trigger (p : process) (hs : list happening) :
  scanning p = 0%nat -> (forall h, In h hs -> h <> CronFires) ->
  forall q, In q (states p hs) -> q = p.
Proof.
  intros H0. induction hs as [|h hs IH]; intros Hhs q Hq; cbn in Hq.
  - destruct Hq as [<- | []]. reflexivity.
  - destruct Hq as [<- | Hq]; [reflexivity|].
    assert (Hstep : step p h = p).
    { unfold step. destruct (alive p); cbn [negb]; [|reflexivity].
      destruct h as [|e|fault query]; [|now rewrite H0 | reflexivity].
      exfalso. apply (Hhs CronFires); [now left | reflexivity]. }
    rewrite Hstep in Hq. apply IH; [|exact Hq].
    intros h' Hh'. apply Hhs. now right.
Qed.

Ltac not_in_trace H :=
  cbn in H; repeat (destruct H as [H | H]; [discriminate|]); destruct H.

(** C8.  With the store file there at start-up, the store is not
    initialised and no scan runs during start-up, the process serves
    the generation it found, and no scan runs until the scheduler
    fires.  With the store file absent, start-up initialises the store
    and starts the first scan at once, unless it has died before, and
    the server is started only after that scan is done: the generation
    served is the one it committed.  In particular, once the
    configuration has been read (the file loaded, the path resolved, a
    time given), the store is initialised, and when that succeeds the
    first scan runs on the empty store: start-up ends there when the
    scan fails, and goes on to the schedule with the generation that
    the scan committed when it is done.  Nothing but the result of
    [os.Stat] on the store file decides between the two. *)
Theorem first_scan_only_without_store (w : world) (exePath : string) :
  Executable w = Ok exePath ->
  (Stat w (dbPath_of exePath) <> StatNotExist ->
     ~ In ScanStarted (trace (main w)) /\
     ~ In InitDB (trace (main w)) /\
     (forall g, final (main w) = Serving g -> g = existing w) /\
     (forall g hs,
        final (main w) = Serving g ->
        (forall h, In h hs -> h <> CronFires) ->
        forall q, In q (states (after_boot g) hs) ->
          scanning q = 0%nat /\ generation q = g)) /\
  (Stat w (dbPath_of exePath) = StatNotExist ->
     ((exists msg, trace (main w) = [Fatal msg]) \/
      (exists rest, trace (main w) = InitDB :: ScanStarted :: rest)) /\
     (In ServerStarted (trace (main w)) ->
        how (scanAndSave (first_scan w) empty_store) = Done /\
        exists h m rest,
          trace (main w) =
          [InitDB; ScanStarted; ScanDone; CronStarted h m; ServerStarted]
          ++ rest) /\
     (forall g, final (main w) = Serving g ->
        g = committed_after (scanAndSave (first_scan w) empty_store)) /\
     (godotenv_Load w (Join (Filepath.Dir exePath) "config.env") = None ->
      (exists configPath, processPath w (Getenv w "path") = Ok configPath) ->
      Getenv w "time" <> "" ->
      (forall e, initDB_fault w = Some e ->
         main w = die [] ("数据库初始化失败:" +:+ error_message e)) /\
      (initDB_fault w = None ->
         (exists rest, trace (main w) = InitDB :: ScanStarted :: rest) /\
         (forall code err,
            how (scanAndSave (first_scan w) empty_store) = Exit code err ->
            main w = die [InitDB; ScanStarted] (error_message err)) /\
         (how (scanAndSave (first_scan w) empty_store) = Done ->
            main w =
            schedule_and_serve w (Getenv w "time")
              [InitDB; ScanStarted; ScanDone]
              (committed_after (scanAndSave (first_scan w) empty_store)) /\
            exists rest,
              trace (main w) = InitDB :: ScanStarted :: ScanDone :: rest)))).
Proof.
  intros Hexe. split; intros Hstat.
  - assert (Hm : main w =
                 schedule_and_serve w (Getenv w "time") [] (existing w) \/
                 exists msg, main w = die [] msg).
    { destruct (main_cases w)
        as [(m & E) | [(exe & Hexe' & Hs & _) | (exe & _ & _ & E)]].
      - right. now exists m.
      - rewrite Hexe in Hexe'. injection Hexe' as <-. contradiction.
      - now left. }
    assert (Hshape :
              (exists msg, main w = die [] msg) \/
              (exists h m msg,
                 main w = die [CronStarted h m; ServerStarted] msg) \/
              (exists h m,
                 main w = {| trace := [CronStarted h m; ServerStarted];
                             final := Serving (existing w) |})).
    { destruct Hm as [E | E]; [|now left]. rewrite E.
      apply (schedule_and_serve_cases w (Getenv w "time") [] (existing w)). }
    assert (Hg : forall g, final (main w) = Serving g -> g = existing w).
    { intros g Hf.
      destruct Hshape as [(m & E) | [(h & m & m' & E) | (h & m & E)]];
        rewrite E in Hf; cbn in Hf; [discriminate | discriminate |].
      now injection Hf as <-. }
    split; [|split; [|split]].
    + intros Hin.
      destruct Hshape as [(m & E) | [(h & m & m' & E) | (h & m & E)]];
        rewrite E in Hin; not_in_trace Hin.
    + intros Hin.
      destruct Hshape as [(m & E) | [(h & m & m' & E) | (h & m & E)]];
        rewrite E in Hin; not_in_trace Hin.
    + exact Hg.
    + intros g hs _ Hhs q Hq.
      now rewrite (states_without_trigger (after_boot g) hs eq_refl Hhs q Hq).
  - split; [|split; [|split]].
    4: {
      intros Hload (configPath & Hpath) Htime.
      apply String.eqb_neq in Htime.
      assert (Hmain :
                main w =
                match initDB w with
                | Err e => die [] ("数据库初始化失败:" +:+ error_message e)
                | Ok fresh =>
                    match how (scanAndSave (first_scan w) fresh) with
                    | Exit _ err =>
                        die [InitDB; ScanStarted] (error_message err)
                    | Done =>
                        schedule_and_serve w (Getenv w "time")
                          [InitDB; ScanStarted; ScanDone]
                          (committed_after (scanAndSave (first_scan w) fresh))
                    end
                end).
      { unfold main. rewrite Hexe. cbv zeta. now rewrite Hload, Hpath, Htime, Hstat. }
      unfold initDB in Hmain. split.
      - intros e He. now rewrite He in Hmain.
      - intros Hinit. rewrite Hinit in Hmain.
        assert (Hrest : exists rest,
                  trace (main w) = InitDB :: ScanStarted :: rest).
        { rewrite Hmain.
          destruct (how (scanAndSave (first_scan w) empty_store)).
          - destruct (schedule_and_serve_cases w (Getenv w "time")
                        [InitDB; ScanStarted; ScanDone]
                        (committed_after
                           (scanAndSave (first_scan w) empty_store)))
              as [(m & E') | [(h & m & m' & E') | (h & m & E')]];
              rewrite E'; eexists; reflexivity.
          - eexists. reflexivity. }
        split; [exact Hrest|]. split.
        + intros code err Hhow. now rewrite Hhow in Hmain.
        + intros Hdone. rewrite Hdone in Hmain. split; [exact Hmain|].
          rewrite Hmain.
          destruct (schedule_and_serve_cases w (Getenv w "time")
                      [InitDB; ScanStarted; ScanDone]
                      (committed_after
                         (scanAndSave (first_scan w) empty_store)))
            as [(m & E') | [(h & m & m' & E') | (h & m & E')]];
            rewrite E'; eexists; reflexivity. }
    all: destruct (main_cases w)
      as [(m & E) | [(exe & _ & _ & Hscan) | (exe & Hexe' & Hs & _)]];
      [ rewrite E
      | destruct Hscan as [(c & err & _ & E) | (Hdone & E)]; rewrite E;
        [| destruct (schedule_and_serve_cases w (Getenv w "time")
                      [InitDB; ScanStarted; ScanDone]
                      (committed_after
                         (scanAndSave (first_scan w) empty_store)))
            as [(m & E') | [(h & m & m' & E') | (h & m & E')]];
            rewrite E' ]
      | rewrite Hexe in Hexe'; injection Hexe' as <-; contradiction ].
    + left. now exists m.
    + right. eexists. reflexivity.
    + right. eexists. reflexivity.
    + right. eexists. reflexivity.
    + right. eexists. reflexivity.
    + intros Hin. not_in_trace Hin.
    + intros Hin. not_in_trace Hin.
    + intros Hin. not_in_trace Hin.
    + intros _. split; [exact Hdone|]. now exists h, m, [Fatal m'].
    + intros _. split; [exact Hdone|]. now exists h, m, [].
    + intros g Hg. discriminate.
    + intros g Hg. discriminate.
    + intros g Hg. discriminate.
    + intros g Hg. discriminate.
    + intros g Hg. cbn [final] in Hg. now injection Hg as <-.
Qed.

Lemma first_scan_only_without_store_witness :
  ~ In ScanStarted (trace (main (example_world true))) /\
  (exists rest,
     trace (main (example_world false)) =
     InitDB :: ScanStarted :: ScanDone :: rest) /\
  final (main (example_world false)) = Serving example_store.
Proof.
  split; [|split].
  - destruct (first_scan_only_without_store (example_world true)
                "/opt/nas/Nas-Everything-search" eq_refl) as (Hthere & _).
    apply Hthere. vm_compute. discriminate.
  - destruct (first_scan_only_without_store (example_world false)
                "/opt/nas/Nas-Everything-search" eq_refl)
      as (_ & Habsent).
    destruct Habsent as (_ & _ & _ & Hruns); [reflexivity|].
    destruct Hruns as (_ & Hscan).
    + reflexivity.
    + eexists. vm_compute. reflexivity.
    + discriminate.
    + destruct Hscan as (_ & _ & Hdone); [reflexivity|].
      apply Hdone. vm_compute. reflexivity.
  - vm_compute. reflexivity.
Defined.

(** C9 as the specification states it fails: a trigger that fires
    while a rebuild is running is not skipped; it starts a second
    [scanAndSave]. *)
Lemma overlapping_trigger_counterexample :
  scanning (step (after_boot example_store) CronFires) = 1%nat /\
  scanning (step (step (after_boot example_store) CronFires) CronFires)
    = 2%nat /\
  step (step (after_boot example_store) CronFires) CronFires
    <> step (after_boot example_store) CronFires.
Proof. repeat split. discriminate. Qed.

(** The traces of start-up. *)
Lemma main_traces (w : world) :
  (exists msg, trace (main w) = [Fatal msg]) \/
  (exists msg, trace (main w) = [InitDB; ScanStarted; Fatal msg]) \/
  (exists tr tail,
     (tr = [] \/ tr = [InitDB; ScanStarted; ScanDone]) /\
     trace (main w) = tr ++ tail /\
     ((exists msg, tail = [Fatal msg]) \/
      (exists h m msg, tail = [CronStarted h m; ServerStarted; Fatal msg]) \/
      (exists h m, tail = [CronStarted h m; ServerStarted]))).
Proof.
  assert (Hs : forall tr g,
            exists tail,
              trace (schedule_and_serve w (Getenv w "time") tr g)
              = tr ++ tail /\
              ((exists msg, tail = [Fatal msg]) \/
               (exists h m msg,
                  tail = [CronStarted h m; ServerStarted; Fatal msg]) \/
               (exists h m, tail = [CronStarted h m; ServerStarted]))).
  { intros tr g.
    destruct (schedule_and_serve_cases w (Getenv w "time") tr g)
      as [(m & E) | [(h & m & m' & E) | (h & m & E)]]; rewrite E;
      cbn [trace die].
    - eexists. split; [reflexivity|]. left. now exists m.
    - eexists. split; [now rewrite <- !app_assoc|].
      right. left. now exists h, m, m'.
    - eexists. split; [now rewrite <- !app_assoc|].
      right. right. now exists h, m. }
  destruct (main_cases w)
    as [(m & ->) | [(exe & _ & _ & [(c & err & _ & ->) | (Hd & ->)])
                   | (exe & _ & _ & ->)]].
  - left. now exists m.
  - right. left. eexists. reflexivity.
  - right. right.
    destruct (Hs [InitDB; ScanStarted; ScanDone]
                (committed_after (scanAndSave (first_scan w) empty_store)))
      as (tail & E & Ht).
    exists [InitDB; ScanStarted; ScanDone], tail. auto.
  - right. right. destruct (Hs [] (existing w)) as (tail & E & Ht).
    exists [], tail. auto.
Qed.

(** C9 (as amended).  The program has no guard against overlapping
    rebuilds: the scheduler of [main] is made without
    [SkipIfStillRunning], so every trigger starts one more
    [scanAndSave], whether or not one is running (with that wrapper a
    trigger during a rebuild would change nothing).  At most one is
    running as long as no trigger fires during a rebuild.  The first
    scan at start-up has always ended when the scheduler is started:
    whatever start-up did before it started the scheduler is either
    nothing or the whole first scan, and the process begins to serve
    with no rebuild running. *)
Theorem trigger_always_starts_scan (p : process) (hs : list happening) :
  (alive p = true ->
     scanning (step p CronFires) = S (scanning p) /\
     step p CronFires <> p /\
     step p CronFires = cron_fire cronScheduler p /\
     skips_running cronScheduler = false /\
     (scanning p <> 0%nat ->
      cron_fire (cron_Start (cron_AddFunc (cron_New true) scan_job)) p = p)) /\
  ((scanning p <= 1)%nat -> triggers_apart p hs = true ->
     forall q, In q (states p hs) -> (scanning q <= 1)%nat) /\
  (forall w before h m after,
     trace (main w) = before ++ CronStarted h m :: after ->
     before = [] \/ before = [InitDB; ScanStarted; ScanDone]) /\
  (forall w g, final (main w) = Serving g -> scanning (after_boot g) = 0%nat).
Proof.
  split; [|split; [|split]].
  - intros Ha. rewrite (step_trigger p Ha). cbn [scanning].
    split; [reflexivity|]. split; [|split; [|split]].
    + intros E. apply (f_equal scanning) in E. cbn in E. lia.
    + cbn. unfold scan_job. now rewrite Ha.
    + reflexivity.
    + intros Hs. cbn. unfold run_entry. cbn.
      destruct (scanning p); [contradiction | reflexivity].
  - revert p. induction hs as [|h hs IH]; intros p Hle Hap q Hq; cbn in Hq.
    + destruct Hq as [<- | []]. exact Hle.
    + destruct Hq as [<- | Hq]; [exact Hle|].
      cbn [triggers_apart] in Hap. apply andb_true_iff in Hap as [Hh Hap].
      apply (IH (step p h)); trivial.
      apply step_scanning_bound; [exact Hle|].
      destruct h; trivial. now apply Nat.eqb_eq.
  - intros w before h m after E.
    destruct (main_traces w)
      as [(msg & Ht) | [(msg & Ht) | (tr & tail & Htr & Ht & Htail)]];
      rewrite Ht in E.
    + exfalso. destruct before as [|x [|y l]]; discriminate.
    + exfalso. destruct before as [|x [|y [|z [|u l]]]]; discriminate.
    + destruct Htail as [(msg & ->) | [(h' & m' & msg & ->) | (h' & m' & ->)]];
        destruct Htr as [-> | ->]; cbn [List.app] in E.
      * exfalso. destruct before as [|x [|y l]]; discriminate.
      * exfalso.
        destruct before as [|x [|y [|z [|u [|v l]]]]]; discriminate.
      * left.
        destruct before as [|x [|y [|z [|u l]]]];
          try reflexivity; exfalso; discriminate.
      * right.
        destruct before as [|x [|y [|z [|u [|v [|w' [|w2 l]]]]]]];
          try discriminate E.
        now injection E as <- <- <- _.
      * left.
        destruct before as [|x [|y [|z l]]];
          try reflexivity; exfalso; discriminate.
      * right.
        destruct before as [|x [|y [|z [|u [|v [|w' l]]]]]];
          try discriminate E.
        now injection E as <- <- <- _.
  - reflexivity.
Qed.

Lemma trigger_always_starts_scan_witness :
  Forall (fun q => (scanning q <= 1)%nat)
    (states (after_boot old_store)
       [CronFires; Request None [("key", "a"); ("type", "file")];
        ScanReturns example_env; CronFires]) /\
  scanning (step (after_boot old_store) CronFires) = 1%nat.
Proof.
  split.
  - apply List.Forall_forall.
    destruct (trigger_always_starts_scan (after_boot old_store)
                [CronFires; Request None [("key", "a"); ("type", "file")];
                 ScanReturns example_env; CronFires]) as (_ & Hone & _).
    apply Hone.
    + cbn. lia.
    + vm_compute. reflexivity.
  - destruct (trigger_always_starts_scan (after_boot old_store) [])
      as (Hfire & _).
    destruct Hfire as (Hs & _); [reflexivity | exact Hs].
Defined.

End MainFacts.

(** ** More on the handler *)

Section HandlerFacts.
Import Str Sqlite Server.

Lemma collect_from_slice (rows : list (string * string * Z * string))
    (l : list FileInfo) :
  collect rows (mk_slice l) =
  Ok (mk_slice
        (l ++ map (fun '(path, filename, size, ct) =>
                     mk_FileInfo path filename size ct) rows)).
Proof.
  revert l. induction rows as [|[[[a b] c] d] rows IH]; intros l.
  - cbn. now rewrite app_nil_r.
  - cbn [collect rows_Scan append map]. rewrite IH. now rewrite <- app_assoc.
Qed.

Lemma collect_from_nil (rows : list (string * string * Z * string)) :
  collect rows nil_slice =
  Ok (match rows with
      | [] => nil_slice
      | _ :: _ =>
          mk_slice (map (fun '(path, filename, size, ct) =>
                           mk_FileInfo path filename size ct) rows)
      end).
Proof.
  destruct rows as [|[[[a b] c] d] rows]; [reflexivity|].
  cbn [collect rows_Scan append]. now rewrite collect_from_slice.
Qed.

(** The three ways the handler answers. *)
Lemma get_handler_cases (db : store) (fault : option string)
    (query : Values) :
  ((Get query "key" = "" \/ Get query "type" = "" \/
    Get query "type" <> "file") /\
   exists msg, get_handler db fault query = http_Error msg StatusBadRequest) \/
  (Get query "key" <> "" /\ Get query "type" = "file" /\
   exists msg, fault = Some msg /\
     get_handler db fault query = http_Error msg StatusInternalServerError) \/
  (Get query "key" <> "" /\ Get query "type" = "file" /\ fault = None /\
   exists files,
     get_handler db fault query =
     {| status := StatusOK; content_type := "application/json";
        content := Json (Encode files) |}).
Proof.
  unfold get_handler, handle_get. cbn [query_fault next_fault rows_Next].
  destruct (String.eqb_spec (Get query "key") "") as [Hk|Hk].
  { left. split; [now left | eexists; reflexivity]. }
  destruct (String.eqb_spec (Get query "type") "") as [Ht|Ht].
  { left. split; [right; now left | eexists; reflexivity]. }
  cbn -[collect select_files_like String.append String.eqb].
  destruct (String.eqb_spec (Get query "type") "file") as [Hf|Hf].
  - right. destruct fault as [msg|];
      cbn -[collect select_files_like String.append].
    + left. split; [exact Hk|]. split; [exact Hf|]. now exists msg.
    + right. split; [exact Hk|]. split; [exact Hf|]. split; [reflexivity|].
      rewrite collect_from_nil. eexists. reflexivity.
  - left. split; [right; now right | eexists; reflexivity].
Qed.

(** X1.  The handler answers with 200, 400 or 500 and nothing else: 200
    exactly for a non-empty [key] with [type=file] when the read
    succeeds, 500 exactly for such a request when the read fails, and
    then the body is the message of the driver; the content type is JSON
    exactly when the status is 200. *)
Theorem handler_status_partition (db : store) (fault : option string)
    (query : Values) :
  (status (get_handler db fault query) = StatusOK <->
   Get query "key" <> "" /\ Get query "type" = "file" /\ fault = None) /\
  (status (get_handler db fault query) = StatusInternalServerError <->
   Get query "key" <> "" /\ Get query "type" = "file" /\ fault <> None) /\
  (forall msg,
     Get query "key" <> "" -> Get query "type" = "file" ->
     fault = Some msg ->
     get_handler db fault query = http_Error msg StatusInternalServerError) /\
  (status (get_handler db fault query) = StatusOK \/
   status (get_handler db fault query) = StatusBadRequest \/
   status (get_handler db fault query) = StatusInternalServerError) /\
  (content_type (get_handler db fault query) = "application/json" <->
   status (get_handler db fault query) = StatusOK).
Proof.
  destruct (get_handler_cases db fault query)
    as [(Hbad & msg & ->) | [(Hk & Ht & msg & -> & ->)
                            | (Hk & Ht & -> & files & ->)]];
    cbn [status content_type http_Error].
  - split; [|split; [|split; [|split]]].
    + split; [discriminate|]. intros (H1 & H2 & _).
      destruct Hbad as [H | [H | H]]; [contradiction| |contradiction].
      rewrite H2 in H. discriminate.
    + split; [discriminate|]. intros (H1 & H2 & _).
      destruct Hbad as [H | [H | H]]; [contradiction| |contradiction].
      rewrite H2 in H. discriminate.
    + intros m H1 H2 _.
      destruct Hbad as [H | [H | H]]; [contradiction| |contradiction].
      rewrite H2 in H. discriminate.
    + right. now left.
    + split; discriminate.
  - split; [|split; [|split; [|split]]].
    + split; [discriminate|]. intros (_ & _ & H). discriminate.
    + split; [|reflexivity]. intros _. repeat split; trivial. discriminate.
    + intros m _ _ H. now injection H as <-.
    + right. now right.
    + split; discriminate.
  - split; [|split; [|split; [|split]]].
    + split; [|reflexivity]. intros _. now repeat split.
    + split; [discriminate|]. intros (_ & _ & H). contradiction.
    + intros m _ _ H. discriminate.
    + now left.
    + split; reflexivity.
Qed.

Lemma joined_rows_records (ps : list path_row) (f : file_row) :
  map (fun '(path, filename, size, ct) => mk_FileInfo path filename size ct)
      (joined_rows ps f) =
  map (fun p => record_of p f)
      (List.filter (fun p => (f_path_id f =? p_id p)%Z) ps).
Proof.
  unfold joined_rows. induction ps as [|p ps IH]; [reflexivity|].
  cbn [flat_map List.filter]. rewrite map_app, IH.
  destruct (f_path_id f =? p_id p)%Z; reflexivity.
Qed.

Lemma rows_Next_map {A B : Type} (g : A -> B) (rows : list A)
    (stop : option nat) :
  map g (rows_Next rows stop) = rows_Next (map g rows) stop.
Proof.
  destruct stop as [n|]; [|reflexivity]. cbn [rows_Next].
  symmetry. apply List.firstn_map.
Qed.

Lemma coerce_utf8_ascii (s : string) :
  ascii_text s = true -> coerce_utf8 s = s.
Proof.
  induction s as [|c s IH]; [reflexivity|]. intros H.
  apply ascii_text_cons in H as [Hc Hs].
  cbn [coerce_utf8]. now rewrite Hc, IH.
Qed.

(** Well-formed UTF-8 is written as it is; a byte that starts no
    well-formed sequence is written as U+FFFD. *)
Example coerce_utf8_replaces :
  coerce_utf8 "aéb" = "aéb" /\
  coerce_utf8 (String (ascii_of_N 195) "b") = replacement +:+ "b" /\
  coerce_utf8 (String (ascii_of_N 169) "") = replacement.
Proof. vm_compute. repeat split. Qed.

(** X2.  A well-formed request for which [db.Query] succeeds is answered
    with status 200 and the records that were read: the matching
    records in the order of the rows of [files] - all of them, or only
    the first [n] when the iteration stops with an error after [n]
    rows, since the handler never asks [rows.Err] - each encoded as an
    object with the keys [path], [filename], [size] and [create_time]
    in this order, in one JSON array; and with [null] when no record
    was read.  A string of ASCII text is written as it is. *)
Theorem handler_body (db : store) (rf : read_faults) (query : Values) :
  Get query "key" <> "" -> Get query "type" = "file" ->
  query_fault rf = None ->
  handle_get db rf query =
  {| status := StatusOK; content_type := "application/json";
     content :=
       Json (match rows_Next (search db (Get query "key")) (next_fault rf)
             with
             | [] => JNull
             | r :: rs => JArray (map encode_FileInfo (r :: rs))
             end) |} /\
  search db (Get query "key") =
  flat_map
    (fun f =>
       if like ("%" +:+ Get query "key" +:+ "%") (f_filename f)
       then map (fun p => record_of p f)
                (List.filter (fun p => (f_path_id f =? p_id p)%Z) (paths db))
       else [])
    (files db) /\
  (forall fi,
     ascii_text (Path fi) = true -> ascii_text (FileName fi) = true ->
     ascii_text (CreateTime fi) = true ->
     encode_FileInfo fi =
     JObject [("path", JString (Path fi));
              ("filename", JString (FileName fi));
              ("size", JNumber (Size fi));
              ("create_time", JString (CreateTime fi))]).
Proof.
  intros Hk Ht Hq. split; [|split].
  - unfold handle_get. rewrite Ht, Hq. apply String.eqb_neq in Hk. rewrite Hk.
    cbn -[collect select_files_like String.append search rows_Next].
    rewrite collect_from_nil, search_rows, <- rows_Next_map.
    destruct (rows_Next (select_files_like db _) _) as [|[[[a b] c] d] rows];
      reflexivity.
  - rewrite search_rows. unfold select_files_like.
    induction (files db) as [|f l IH]; [reflexivity|].
    cbn [flat_map]. rewrite map_app, IH. f_equal.
    destruct (like _ (f_filename f)); [|reflexivity].
    apply joined_rows_records.
  - intros fi H1 H2 H3. unfold encode_FileInfo, encode_string.
    now rewrite !coerce_utf8_ascii.
Qed.

End HandlerFacts.

(** ** More on start-up *)

Section StartupFacts.
Import Str Sqlite Scan Main Plain.

Lemma split_on_not_nil (sep : ascii) (s : string) : split_on sep s <> [].
Proof.
  induction s as [|c s IH]; cbn; [discriminate|].
  destruct (Ascii.eqb c sep); [discriminate|].
  destruct (split_on sep s); discriminate.
Qed.

Lemma split_on_plain (sep : ascii) (s : string) :
  existsc (fun c => Ascii.eqb c sep) s = false -> split_on sep s = [s].
Proof.
  induction s as [|c s IH]; cbn; [reflexivity|]. intros H.
  apply orb_false_iff in H as [Hc Hs]. rewrite Hc, (IH Hs). reflexivity.
Qed.

Lemma split_on_append (sep : ascii) (a b : string) :
  split_on sep (a +:+ String sep b) = split_on sep a ++ split_on sep b.
Proof.
  induction a as [|c a IH]; cbn.
  - now rewrite Ascii.eqb_refl.
  - rewrite IH. destruct (Ascii.eqb c sep); [reflexivity|].
    destruct (split_on sep a) eqn:E; [now destruct (split_on_not_nil sep a)|].
    reflexivity.
Qed.

Lemma split_on_pieces (sep : ascii) (s : string) :
  Forall (fun w => existsc (fun c => Ascii.eqb c sep) w = false)
         (split_on sep s).
Proof.
  induction s as [|c s IH]; cbn; [now repeat constructor|].
  destruct (Ascii.eqb c sep) eqn:Hc; [now constructor|].
  destruct (split_on sep s) as [|w ws].
  - constructor; [cbn; now rewrite Hc | constructor].
  - inversion IH; subst. constructor; [|assumption]. cbn. now rewrite Hc.
Qed.

(** [strings.Join] undoes [strings.Split]. *)
Lemma join_split (sep : ascii) (s : string) :
  join_with (String sep "") (split_on sep s) = s.
Proof.
  induction s as [|c s IH]; [reflexivity|]. cbn [split_on].
  destruct (Ascii.eqb_spec c sep) as [->|_].
  - destruct (split_on sep s) as [|w ws] eqn:E;
      [now destruct (split_on_not_nil sep s)|].
    cbn [join_with] in *. now rewrite IH.
  - destruct (split_on sep s) as [|w ws] eqn:E;
      [now destruct (split_on_not_nil sep s)|].
    destruct ws; cbn [join_with] in *; now rewrite <- IH.
Qed.

(** A string splits in two at its only separator. *)
Lemma split_on_two (sep : ascii) (s h m : string) :
  split_on sep s = [h; m] <->
  s = h +:+ String sep m /\
  existsc (fun c => Ascii.eqb c sep) h = false /\
  existsc (fun c => Ascii.eqb c sep) m = false.
Proof.
  split.
  - intros H. pose proof (join_split sep s) as Hj.
    pose proof (split_on_pieces sep s) as Hp. rewrite H in Hj, Hp.
    cbn [join_with] in Hj. inversion Hp as [|? ? Hh Hp']; subst.
    inversion Hp' as [|? ? Hm _]; subst. auto.
  - intros (-> & Hh & Hm).
    now rewrite split_on_append, (split_on_plain _ _ Hh), (split_on_plain _ _ Hm).
Qed.

Lemma split_colon (hs ms : string) :
  colon_free hs = true -> colon_free ms = true ->
  split_on ":" (hs +:+ ":" +:+ ms) = [hs; ms].
Proof.
  unfold colon_free. intros Hh Hm. apply negb_true_iff in Hh, Hm.
  apply split_on_two. split; [reflexivity | now split].
Qed.

Lemma split_colon_inv (s hs ms : string) :
  split_on ":" s = [hs; ms] ->
  s = hs +:+ ":" +:+ ms /\ colon_free hs = true /\ colon_free ms = true.
Proof.
  unfold colon_free. intros H. apply split_on_two in H as (-> & Hh & Hm).
  rewrite Hh, Hm. now repeat split.
Qed.

(** X3.  The scheduler is started for hour [h] and minute [m] exactly
    when the configured time is two pieces around its only colon which
    [strconv.Atoi] reads as [h] between 0 and 23 and [m] between 0 and 59;
    otherwise start-up ends there with a fatal error and starts neither
    the scheduler nor the server. *)
Theorem schedule_accepted_iff (w : world) (configTime : string)
    (tr : list event) (g : store) (h m : Z) :
  AddFunc_fault w = None ->
  ((exists rest,
      trace (schedule_and_serve w configTime tr g) =
      tr ++ [CronStarted h m; ServerStarted] ++ rest) <->
   (exists hs ms,
      configTime = hs +:+ ":" +:+ ms /\
      colon_free hs = true /\ colon_free ms = true /\
      Atoi hs = Ok h /\ Atoi ms = Ok m /\
      0 <= h <= 23 /\ 0 <= m <= 59)) /\
  ((forall h' m' rest,
      trace (schedule_and_serve w configTime tr g) <>
      tr ++ [CronStarted h' m'; ServerStarted] ++ rest) ->
   exists msg, schedule_and_serve w configTime tr g = die tr msg).
Proof.
  intros Hadd. unfold schedule_and_serve. rewrite Hadd.
  destruct (split_on ":" configTime) as [|hs [|ms [|x l]]] eqn:Hsplit.
  1,2,4: split;
    [ split;
      [ intros (rest & H); cbn in H; apply app_inv_head in H; discriminate
      | intros (hs' & ms' & -> & Hh & Hm & _);
        rewrite (split_colon hs' ms' Hh Hm) in Hsplit; discriminate ]
    | intros _; eexists; reflexivity ].
  apply split_colon_inv in Hsplit as (-> & Hh & Hm).
  assert (Hinj : forall hs' ms',
             hs +:+ ":" +:+ ms = hs' +:+ ":" +:+ ms' ->
             colon_free hs' = true -> colon_free ms' = true ->
             hs' = hs /\ ms' = ms).
  { intros hs' ms' E Hh' Hm'.
    pose proof (split_colon hs' ms' Hh' Hm') as Hs.
    rewrite <- E, (split_colon hs ms Hh Hm) in Hs.
    now injection Hs as <- <-. }
  assert (Hno : forall (b : boot) msg,
             b = die tr msg ->
             ((exists rest,
                 trace b = tr ++ [CronStarted h m; ServerStarted] ++ rest) ->
              False)).
  { intros b msg -> (rest & H). cbn in H. apply app_inv_head in H.
    discriminate. }
  destruct (Atoi hs) as [hour|eh] eqn:Hah.
  2:{ split; [split|].
      - intros H. exfalso. eapply Hno; eauto.
      - intros (hs' & ms' & E & Hh' & Hm' & Ha & _).
        destruct (Hinj hs' ms' E Hh' Hm') as [-> _]. congruence.
      - intros _. eexists. reflexivity. }
  destruct ((hour <? 0) || (hour >? 23)) eqn:Hhr.
  { split; [split|].
    - intros H. exfalso. eapply Hno; eauto.
    - intros (hs' & ms' & E & Hh' & Hm' & Ha & _ & Hr & _).
      destruct (Hinj hs' ms' E Hh' Hm') as [-> _].
      rewrite Hah in Ha. injection Ha as ->. lia.
    - intros _. eexists. reflexivity. }
  destruct (Atoi ms) as [minute|em] eqn:Ham.
  2:{ split; [split|].
      - intros H. exfalso. eapply Hno; eauto.
      - intros (hs' & ms' & E & Hh' & Hm' & _ & Ha & _).
        destruct (Hinj hs' ms' E Hh' Hm') as [_ ->]. congruence.
      - intros _. eexists. reflexivity. }
  destruct ((minute <? 0) || (minute >? 59)) eqn:Hmr.
  { split; [split|].
    - intros H. exfalso. eapply Hno; eauto.
    - intros (hs' & ms' & E & Hh' & Hm' & _ & Ha & _ & Hr).
      destruct (Hinj hs' ms' E Hh' Hm') as [_ ->].
      rewrite Ham in Ha. injection Ha as ->. lia.
    - intros _. eexists. reflexivity. }
  assert (Htrace : exists rest,
             trace (match Listen_fault w with
                    | Some e =>
                        die ((tr ++ [CronStarted hour minute]) ++ [ServerStarted])
                          (error_message e)
                    | None =>
                        {| trace := (tr ++ [CronStarted hour minute])
                                    ++ [ServerStarted];
                           final := Serving g |}
                    end) =
             tr ++ [CronStarted hour minute; ServerStarted] ++ rest).
  { destruct (Listen_fault w) as [e|]; cbn [trace die].
    - exists [Fatal (error_message e)]. now rewrite <- !app_assoc.
    - exists []. now rewrite <- !app_assoc. }
  destruct Htrace as (rest0 & Htrace). split; [split|].
  - intros (rest & H). rewrite Htrace in H. apply app_inv_head in H.
    injection H as <- <- _. exists hs, ms.
    repeat split; trivial; lia.
  - intros (hs' & ms' & E & Hh' & Hm' & Ha & Ha' & _).
    destruct (Hinj hs' ms' E Hh' Hm') as [-> ->].
    rewrite Hah in Ha. rewrite Ham in Ha'. injection Ha as ->.
    injection Ha' as ->. now exists rest0.
  - intros H. exfalso. apply (H hour minute rest0). exact Htrace.
Qed.

Lemma schedule_accepted_iff_witness :
  exists rest,
    trace (schedule_and_serve (world_with_time "+7:05" true) "+7:05" []
             Examples.old_store) =
    [] ++ [CronStarted 7 5; ServerStarted] ++ rest.
Proof.
  apply (proj2 (proj1 (schedule_accepted_iff
                         (world_with_time "+7:05" true) "+7:05" []
                         Examples.old_store 7 5 eq_refl))).
  exists "+7", "05". repeat split; try reflexivity; lia.
Defined.

(** X4.  Start-up touches the store only after the whole configuration
    has been read: when it initialises the store, or comes to serve, the
    path of the executable was found, [config.env] was loaded, the
    configured path was resolved to a directory that is there, and the
    configured time is not empty.  An empty time, in particular, ends
    start-up before the store is looked at. *)
Theorem store_touched_after_configuration (w : world) :
  (In InitDB (trace (main w)) \/ exists g, final (main w) = Serving g) ->
  exists exePath configPath,
    Executable w = Ok exePath /\
    godotenv_Load w (Join (Filepath.Dir exePath) "config.env") = None /\
    processPath w (Getenv w "path") = Ok configPath /\
    Getenv w "time" <> "".
Proof.
  unfold main.
  destruct (Executable w) as [exePath|e];
    [|intros [H | (g & H)]; cbn in H; [intuition discriminate | discriminate]].
  destruct (godotenv_Load w _) eqn:Hload;
    [intros [H | (g & H)]; cbn in H; [intuition discriminate | discriminate]|].
  destruct (processPath w _) as [configPath|e] eqn:Hpath;
    [|intros [H | (g & H)]; cbn in H; [intuition discriminate | discriminate]].
  destruct (String.eqb_spec (Getenv w "time") "") as [Ht|Ht];
    [intros [H | (g & H)]; cbn in H; [intuition discriminate | discriminate]|].
  intros _. now exists exePath, configPath.
Qed.

Lemma store_touched_after_configuration_witness :
  exists exePath configPath,
    Executable (Examples.example_world false) = Ok exePath /\
    processPath (Examples.example_world false) "/data" = Ok configPath.
Proof.
  destruct (store_touched_after_configuration (Examples.example_world false))
    as (exePath & configPath & He & _ & Hp & _).
  - left. vm_compute. auto.
  - now exists exePath, configPath.
Defined.

(** X5.  The format of the configured time is checked only after the
    first scan: on a missing store, a start-up whose scan succeeds but
    which does not come to start the scheduler has initialised the
    store, run the whole scan and committed it before it exits. *)
Theorem time_checked_after_first_scan (w : world) :
  In ScanStarted (trace (main w)) ->
  how (scanAndSave (first_scan w) empty_store) = Done ->
  (forall h m, ~ In (CronStarted h m) (trace (main w))) ->
  exists msg,
    main w =
    {| trace := [InitDB; ScanStarted; ScanDone; Fatal msg];
       final := Exited |}.
Proof.
  intros Hin Hdone Hno.
  destruct (main_cases w)
    as [(m & E) | [(exe & _ & _ & [(c & err & Hexit & _) | (_ & E)])
                  | (exe & _ & _ & E)]].
  - rewrite E in Hin. cbn in Hin. intuition discriminate.
  - rewrite Hexit in Hdone. discriminate.
  - rewrite E in Hno |- *.
    destruct (schedule_and_serve_cases w (Getenv w "time")
                [InitDB; ScanStarted; ScanDone]
                (committed_after (scanAndSave (first_scan w) empty_store)))
      as [(m & E') | [(h & m & m' & E') | (h & m & E')]];
      rewrite E' in Hno |- *.
    + now exists m.
    + exfalso. apply (Hno h m). cbn. auto 6.
    + exfalso. apply (Hno h m). cbn. auto 6.
  - exfalso. rewrite E in Hin.
    destruct (schedule_and_serve_cases w (Getenv w "time") [] (existing w))
      as [(m & E') | [(h & m & m' & E') | (h & m & E')]];
      rewrite E' in Hin; cbn in Hin; intuition discriminate.
Qed.

Lemma time_checked_after_first_scan_witness :
  exists msg,
    main (world_with_time "2300" false) =
    {| trace := [InitDB; ScanStarted; ScanDone; Fatal msg];
       final := Exited |}.
Proof.
  apply (time_checked_after_first_scan (world_with_time "2300" false)).
  - vm_compute. auto.
  - vm_compute. reflexivity.
  - intros h m H. vm_compute in H. intuition discriminate.
Defined.

End StartupFacts.

(** ** The rebuild, without the cache *)

Section IndexFacts.
Import Sqlite Os Filepath Scan Plain.

Lemma lookup_path_some (ps : list path_row) (dir : string) (id : Z) :
  lookup_path ps dir = Some id -> In (mk_path_row id dir) ps.
Proof.
  induction ps as [|[i d] ps IH]; cbn; [discriminate|].
  destruct (String.eqb_spec d dir) as [->|_].
  - intros H. injection H as ->. now left.
  - intros H. right. now apply IH.
Qed.

Lemma lookup_path_none (ps : list path_row) (dir : string) :
  lookup_path ps dir = None <-> ~ In dir (map p_path ps).
Proof.
  induction ps as [|[i d] ps IH]; cbn; [tauto|].
  destruct (String.eqb_spec d dir) as [->|Hne].
  - split; [discriminate | intros H; exfalso; apply H; now left].
  - rewrite IH. split; [intros H [E | Hin]; [contradiction | now apply H]
                       | intros H Hin; apply H; now right].
Qed.

(** Under the invariant the cache answers as the table would. *)
Lemma cache_is_lookup (s : state) (dir : string) :
  cache_agrees s ->
  pathCache s !! dir = lookup_path (paths (view (tx s))) dir.
Proof.
  intros Hc. destruct (lookup_path _ dir) as [id|] eqn:Hl.
  - apply Hc. now apply lookup_path_some.
  - destruct (pathCache s !! dir) as [id|] eqn:Hp; [|reflexivity].
    apply Hc in Hp. apply lookup_path_none in Hl. exfalso. apply Hl.
    change dir with (p_path (mk_path_row id dir)). now apply in_map.
Qed.

Lemma path_id_of_plain (fp : fault_plan) (db0 : store) (s s' : state)
    (dir : string) (id : Z) :
  well_formed db0 s -> path_id_of fp s dir = (s', Ok id) ->
  upsert_path (view (tx s)) dir = (view (tx s'), id) /\
  (sent (tx s') + length (paths (view (tx s))) =
   sent (tx s) + length (paths (view (tx s'))))%nat /\
  files (view (tx s')) = files (view (tx s)).
Proof.
  intros Hwf H. pose proof Hwf as (Hc & _).
  unfold path_id_of, upsert_path in *. rewrite <- (cache_is_lookup s dir Hc).
  destruct (pathCache s !! dir) as [i|] eqn:Hlook.
  - injection H as <- <-. auto.
  - assert (Hnew : forall i, ~ In (mk_path_row i dir) (paths (view (tx s)))).
    { intros i Hin. apply Hc in Hin. congruence. }
    destruct (run_cases fp (tx s) (fun db => insert_or_ignore_path db dir))
      as [(msg & _ & Hrun) | (_ & Hrun & _)]; rewrite Hrun in H.
    + cbn [Row_Scan] in H. discriminate.
    + rewrite (insert_or_ignore_path_new _ _ Hnew) in H.
      cbn [fst snd Row_Scan] in H. injection H as <- <-.
      cbn [tx view sent paths files]. rewrite length_app. cbn [length].
      repeat split. lia.
Qed.

(** One call of the callback that returns no error has done to the
    tables what the plain description says, with one statement for each
    row it added. *)
Lemma scan_callback_plain (fp : fault_plan) (total : Z) (db0 : store)
    (v : visit) (s s' : state) :
  well_formed db0 s -> scan_callback fp total v s = (s', None) ->
  view (tx s') = store_visit (view (tx s)) v /\
  (sent (tx s') + length (paths (view (tx s))) + length (files (view (tx s)))
   = sent (tx s) + length (paths (view (tx s')))
     + length (files (view (tx s'))))%nat /\
  scannedFiles s' =
    (if regular v then incr_int64 (scannedFiles s) else scannedFiles s) /\
  log s' =
    (if regular v && (Z.rem (incr_int64 (scannedFiles s)) 1000 =? 0)
     then log s ++ [Printf_progress (incr_int64 (scannedFiles s)) total]
     else log s).
Proof.
  intros Hwf H. unfold scan_callback, store_visit, regular in *.
  destruct v as [path info | path err].
  2:{ injection H as <-. auto. }
  destruct (IsDir info); cbn [negb andb].
  { injection H as <-. auto. }
  cbn zeta in H.
  destruct (path_id_of fp s (ToSlash (Dir path))) as [s1 [pathID | e]] eqn:Hp;
    [|discriminate].
  destruct (path_id_of_spec _ _ _ _ _ _ Hwf Hp) as (_ & _ & Hn & Hl & _).
  destruct (path_id_of_plain _ _ _ _ _ _ Hwf Hp) as (Hup & Hsent & Hfiles).
  rewrite Hup.
  match type of H with
  | context [run fp (tx s1) ?stmt] =>
      destruct (run_cases fp (tx s1) stmt)
        as [(msg & _ & Hrun) | (_ & Hrun & _)]; rewrite Hrun in H
  end; [discriminate|].
  cbn [fst snd] in H. injection H as <-.
  cbn [tx view sent scannedFiles log]. rewrite Hn, Hl.
  repeat split. unfold insert_file. cbn [paths files].
  rewrite length_app, Hfiles. cbn [length]. lia.
Qed.

Lemma walk_plain (fp : fault_plan) (total : Z) (db0 : store)
    (vs : list visit) (s s' : state) :
  well_formed db0 s -> Walk vs (scan_callback fp total) s = (s', None) ->
  view (tx s') = fold_left store_visit vs (view (tx s)) /\
  (sent (tx s') + length (paths (view (tx s))) + length (files (view (tx s)))
   = sent (tx s) + length (paths (view (tx s')))
     + length (files (view (tx s'))))%nat.
Proof.
  revert s. induction vs as [|v vs IH]; intros s Hwf H; cbn [Walk] in H.
  - injection H as <-. auto.
  - destruct (scan_callback fp total v s) as [s1 [e|]] eqn:Hcb; [discriminate|].
    pose proof (proj1 (scan_callback_spec _ _ _ _ _ _ _ Hwf Hcb)) as Hwf1.
    destruct (scan_callback_plain _ _ _ _ _ _ Hwf Hcb) as (Hv & Hs & _).
    destruct (IH s1 Hwf1 H) as (Hv' & Hs').
    cbn [fold_left]. rewrite <- Hv. split; [exact Hv'|]. lia.
Qed.

Lemma clear_tables_sent (fp : fault_plan) (db : store) (t1 : txn) :
  clear_tables fp (Begin db) = (t1, None) -> sent t1 = 2%nat.
Proof.
  unfold clear_tables. intros H.
  destruct (run_cases fp (Begin db) (fun d => (delete_files d, tt)))
    as [(msg & _ & Hrun) | (_ & Hrun & _)]; rewrite Hrun in H;
    [discriminate|].
  match type of H with
  | context [run fp ?t ?stmt] =>
      destruct (run_cases fp t stmt)
        as [(msg & _ & Hrun2) | (_ & Hrun2 & _)]; rewrite Hrun2 in H
  end; [discriminate|].
  injection H as <-. reflexivity.
Qed.

(** What a rebuild that commits has gone through. *)
Lemma scanAndSave_done (e : env) (db : store) :
  how (scanAndSave e db) = Done ->
  exists t1 s,
    let total := fst (Walk (first_walk e) count_callback 0) in
    let start :=
      start_state t1 [Println "开始扫描文件..."; Printf_total total] in
    view t1 = empty_store /\ sent t1 = 2%nat /\
    well_formed db start /\
    Walk (second_walk e) (scan_callback (faults e) total) start = (s, None) /\
    scanAndSave e db =
    {| committed_after := view (tx s); last_tx := Some (tx s);
       out_log := log s ++ [Println "文件扫描完成，数据已更新"];
       how := Done |}.
Proof.
  unfold scanAndSave. change (sql_Open "sqlite") with (Ok tt : result unit).
  destruct (begin_fault e); [discriminate|].
  destruct (clear_tables (faults e) (Begin db)) as [t1 r] eqn:Hclear.
  destruct (clear_tables_spec _ _ _ _ Hclear) as (Hh1 & Hr).
  destruct r as [err|]; [discriminate|]. destruct Hr as (Hv & _).
  pose proof (first_walk_never_fails (first_walk e) 0) as Hfirst.
  destruct (Walk (first_walk e) count_callback 0) as [total r1] eqn:Hw1.
  cbn [snd fst] in *. subst r1.
  change ([Println "开始扫描文件..."] ++ [Printf_total total])
    with [Println "开始扫描文件..."; Printf_total total].
  destruct (Walk (second_walk e) (scan_callback (faults e) total) _)
    as [s [err|]] eqn:Hw2; [discriminate|].
  destruct (commit_fault e); [discriminate|]. intros _.
  exists t1, s. cbn zeta. split; [exact Hv|].
  split; [exact (clear_tables_sent _ _ _ Hclear)|].
  split; [now apply start_state_well_formed|]. split; [exact Hw2|].
  reflexivity.
Qed.

(** A committed generation is the index of the second walk. *)
Lemma committed_is_index (e : env) (db : store) :
  how (scanAndSave e db) = Done ->
  committed_after (scanAndSave e db) = index_of (second_walk e) /\
  exists t, last_tx (scanAndSave e db) = Some t /\
    view t = index_of (second_walk e) /\
    sent t =
    (2 + length (paths (index_of (second_walk e)))
       + length (files (index_of (second_walk e))))%nat.
Proof.
  intros Hdone.
  destruct (scanAndSave_done e db Hdone) as (t1 & s & Hv & Hs & Hwf & Hw & ->).
  destruct (walk_plain _ _ _ _ _ _ Hwf Hw) as (Hview & Hsent).
  cbn [start_state tx] in Hview, Hsent. rewrite Hv in Hview, Hsent.
  cbn [committed_after last_tx]. fold (index_of (second_walk e)) in Hview.
  split; [exact Hview|]. exists (tx s). split; [reflexivity|].
  split; [exact Hview|]. rewrite <- Hview. cbn in Hsent. lia.
Qed.

(** X6.  The path cache changes nothing in what a rebuild stores: a
    rebuild that commits leaves exactly the tables that looking each
    directory up in [paths] itself, and adding it when it is missing,
    would have built from empty tables.  So the committed tables depend
    on the second walk alone: not on what the store held, nor on the
    first walk. *)
Theorem cache_is_transparent (e1 e2 : env) (db1 db2 : store) :
  how (scanAndSave e1 db1) = Done ->
  committed_after (scanAndSave e1 db1) = index_of (second_walk e1) /\
  (how (scanAndSave e2 db2) = Done ->
   second_walk e2 = second_walk e1 ->
   committed_after (scanAndSave e2 db2) =
   committed_after (scanAndSave e1 db1)).
Proof.
  intros H1. destruct (committed_is_index e1 db1 H1) as (E1 & _).
  split; [exact E1|]. intros H2 Hw.
  destruct (committed_is_index e2 db2 H2) as (E2 & _).
  now rewrite E1, E2, Hw.
Qed.

Lemma cache_is_transparent_witness :
  committed_after (scanAndSave Examples.example_env Examples.old_store) =
  index_of Examples.example_walk.
Proof.
  destruct (cache_is_transparent Examples.example_env Examples.example_env
              Examples.old_store Examples.old_store) as (H & _).
  - vm_compute. reflexivity.
  - exact H.
Defined.

(** X7.  A rebuild that commits has sent the database two statements to
    clear the tables and then exactly one for each row of the new
    generation: each directory is inserted once, however many of its
    files are visited. *)
Theorem one_statement_per_row (e : env) (db : store) :
  how (scanAndSave e db) = Done ->
  exists t,
    last_tx (scanAndSave e db) = Some t /\
    view t = committed_after (scanAndSave e db) /\
    sent t =
    (2 + length (paths (committed_after (scanAndSave e db)))
       + length (files (committed_after (scanAndSave e db))))%nat.
Proof.
  intros Hdone. destruct (committed_is_index e db Hdone) as (-> & t & H).
  now exists t.
Qed.

Lemma one_statement_per_row_witness :
  exists t,
    last_tx (scanAndSave Examples.example_env Examples.old_store) = Some t /\
    sent t = 6%nat.
Proof.
  destruct (one_statement_per_row Examples.example_env Examples.old_store)
    as (t & Ht & _ & Hs).
  - vm_compute. reflexivity.
  - exists t. split; [exact Ht|]. rewrite Hs. vm_compute. reflexivity.
Defined.









End IndexFacts.

(** ** The log of a rebuild *)

Section LogFacts.
Import Sqlite Os Filepath Scan Plain.

Lemma incr_int64_small (x : Z) :
  - 2 ^ 63 <= x + 1 < 2 ^ 63 -> incr_int64 x = x + 1.
Proof. intros H. unfold incr_int64. rewrite Z.mod_small; lia. Qed.

Lemma first_walk_counts (vs : list visit) (n : nat) :
  Z.of_nat (n + regular_files vs) < 2 ^ 63 ->
  fst (Walk vs count_callback (Z.of_nat n)) =
  Z.of_nat (n + regular_files vs).
Proof.
  revert n. unfold regular_files.
  induction vs as [|v vs IH]; intros n Hn; cbn [Walk List.filter].
  - cbn. now rewrite Nat.add_0_r.
  - destruct v as [path info | path err];
      cbn [count_callback regular List.filter] in *.
    + destruct (IsDir info); cbn [negb length List.filter] in *.
      * now apply IH.
      * rewrite incr_int64_small by lia.
        replace (Z.of_nat n + 1) with (Z.of_nat (S n)) by lia.
        rewrite IH by lia. f_equal. lia.
    + now apply IH.
Qed.

Lemma progress_lines_succ (n : nat) (total : Z) :
  progress_lines (S n) total =
  progress_lines n total ++
  (if Z.rem (Z.of_nat (S n)) 1000 =? 0
   then [Printf_progress (Z.of_nat (S n)) total] else []).
Proof.
  unfold progress_lines.
  pose proof (Nat.div_mod_eq n 1000) as Hn.
  pose proof (Nat.mod_upper_bound n 1000 ltac:(lia)) as Hr.
  rewrite Z.rem_mod_nonneg by lia.
  destruct (Nat.eq_dec (n mod 1000)%nat 999%nat) as [E|E].
  - assert (Hq : (S n / 1000 = S (n / 1000))%nat).
    { symmetry. apply (Nat.div_unique (S n) 1000 _ 0%nat); lia. }
    assert (Hm : Z.of_nat (S n) mod 1000 = 0).
    { symmetry. apply (Z.mod_unique _ _ (Z.of_nat (S (n / 1000)))); lia. }
    rewrite Hq, Hm, seq_S, map_app. cbn [map Z.eqb]. repeat f_equal. lia.
  - assert (Hq : (S n / 1000 = n / 1000)%nat).
    { symmetry.
      apply (Nat.div_unique (S n) 1000 _ (S (n mod 1000)%nat)); lia. }
    assert (Hm : Z.of_nat (S n) mod 1000 = Z.of_nat (S (n mod 1000)%nat)).
    { symmetry. apply (Z.mod_unique _ _ (Z.of_nat (n / 1000))); lia. }
    rewrite Hq, Hm.
    destruct (Z.eqb_spec (Z.of_nat (S (n mod 1000)%nat)) 0); [lia|].
    now rewrite app_nil_r.
Qed.

Lemma walk_log (fp : fault_plan) (total : Z) (db0 : store)
    (vs : list visit) (s s' : state) (n : nat) (lg : list log_line) :
  well_formed db0 s -> Walk vs (scan_callback fp total) s = (s', None) ->
  scannedFiles s = Z.of_nat n -> log s = lg ++ progress_lines n total ->
  Z.of_nat (n + regular_files vs) < 2 ^ 63 ->
  scannedFiles s' = Z.of_nat (n + regular_files vs) /\
  log s' = lg ++ progress_lines (n + regular_files vs) total.
Proof.
  revert s n. unfold regular_files.
  induction vs as [|v vs IH]; intros s n Hwf H Hn Hl Hb;
    cbn [Walk List.filter] in *.
  - injection H as <-. cbn [length]. now rewrite Nat.add_0_r.
  - destruct (scan_callback fp total v s) as [s1 [e|]] eqn:Hcb; [discriminate|].
    pose proof (proj1 (scan_callback_spec _ _ _ _ _ _ _ Hwf Hcb)) as Hwf1.
    destruct (scan_callback_plain _ _ _ _ _ _ Hwf Hcb) as (_ & _ & Hn1 & Hl1).
    destruct (regular v); cbn [andb length] in *.
    + rewrite Hn, incr_int64_small in Hn1, Hl1 by lia.
      replace (Z.of_nat n + 1) with (Z.of_nat (S n)) in Hn1, Hl1 by lia.
      replace (n + S (length (List.filter regular vs)))%nat
        with (S n + length (List.filter regular vs))%nat in * by lia.
      apply (IH s1 (S n) Hwf1 H Hn1); [|exact Hb].
      rewrite Hl1, Hl, progress_lines_succ.
      destruct (Z.rem (Z.of_nat (S n)) 1000 =? 0);
        now rewrite <- ?app_assoc, ?app_nil_r.
    + apply (IH s1 n Hwf1 H); [congruence | congruence | exact Hb].
Qed.

(** X9.  The log of a rebuild that commits: the opening line, the number
    of regular files that the first walk counted, one progress line
    after every thousandth file inserted, each with the count so far and
    that total, and the closing line.  (The counters are 64-bit; the
    counts are taken to fit.) *)
Theorem rebuild_log (e : env) (db : store) :
  how (scanAndSave e db) = Done ->
  Z.of_nat (regular_files (first_walk e)) < 2 ^ 63 ->
  Z.of_nat (regular_files (second_walk e)) < 2 ^ 63 ->
  out_log (scanAndSave e db) =
  [Println "开始扫描文件...";
   Printf_total (Z.of_nat (regular_files (first_walk e)))]
  ++ progress_lines (regular_files (second_walk e))
       (Z.of_nat (regular_files (first_walk e)))
  ++ [Println "文件扫描完成，数据已更新"].
Proof.
  intros Hdone H1 H2.
  destruct (scanAndSave_done e db Hdone) as (t1 & s & _ & _ & Hwf & Hw & ->).
  cbn zeta in Hwf, Hw. cbn [out_log].
  pose proof (first_walk_counts (first_walk e) 0 H1) as Hc.
  change (Z.of_nat 0) with 0 in Hc. cbn [Nat.add] in Hc.
  rewrite Hc in Hwf, Hw.
  destruct (walk_log _ _ _ _ _ _ 0
              [Println "开始扫描文件...";
               Printf_total (Z.of_nat (regular_files (first_walk e)))]
              Hwf Hw eq_refl) as (_ & Hl).
  - cbn. reflexivity.
  - exact H2.
  - rewrite Hl. cbn [Nat.add]. now rewrite <- app_assoc.
Qed.

Lemma rebuild_log_witness :
  out_log (scanAndSave Examples.example_env Examples.old_store) =
  [Println "开始扫描文件..."; Printf_total 2;
   Println "文件扫描完成，数据已更新"].
Proof.
  apply (rebuild_log Examples.example_env Examples.old_store).
  - vm_compute. reflexivity.
  - vm_compute. reflexivity.
  - vm_compute. reflexivity.
Defined.

End LogFacts.

(** ** Paths *)

Section PathFacts.
Import Str Sqlite Os Filepath Scan Main Plain.

Lemma is_name_spec (e : string) :
  is_name e = true ->
  String.eqb e "" = false /\ String.eqb e "." = false /\
  String.eqb e ".." = false /\
  existsc (fun c => Ascii.eqb c "/"%char) e = false.
Proof.
  unfold is_name. rewrite !andb_true_iff, !negb_true_iff.
  intros (((H1 & H2) & H3) & H4). auto.
Qed.

Lemma join_two (sep w w' : string) (ws : list string) :
  join_with sep (w :: w' :: ws) = w +:+ sep +:+ join_with sep (w' :: ws).
Proof. reflexivity. Qed.

Lemma join_snoc (sep : string) (ws : list string) (w n : string) :
  join_with sep ((w :: ws) ++ [n]) = join_with sep (w :: ws) +:+ sep +:+ n.
Proof.
  revert w. induction ws as [|w' ws IH]; intros w; [reflexivity|].
  change ((w :: w' :: ws) ++ [n]) with (w :: ((w' :: ws) ++ [n])).
  destruct ((w' :: ws) ++ [n]) as [|x l] eqn:E; [discriminate|].
  rewrite join_two, <- E, IH, join_two. now rewrite !append_assoc.
Qed.

(** [strings.Split] undoes [strings.Join] of pieces without the
    separator. *)
Lemma split_join (w : string) (ws : list string) :
  Forall (fun e => existsc (fun c => Ascii.eqb c "/"%char) e = false)
         (w :: ws) ->
  split_on "/" (join_with "/" (w :: ws)) = w :: ws.
Proof.
  revert w. induction ws as [|w' ws IH]; intros w H.
  - inversion H; subst. now apply split_on_plain.
  - inversion H as [|? ? Hw H']; subst. rewrite join_two.
    change ("/" +:+ join_with "/" (w' :: ws))
      with (String "/" (join_with "/" (w' :: ws))).
    rewrite split_on_append, (split_on_plain _ _ Hw), (IH w' H'). reflexivity.
Qed.

Lemma names_pieces (elems : list string) :
  Forall (fun e => is_name e = true) elems ->
  Forall (fun e => existsc (fun c => Ascii.eqb c "/"%char) e = false) elems.
Proof.
  rewrite !List.Forall_forall. intros H e He. now apply is_name_spec, H.
Qed.

(** [Clean] keeps names as they come. *)
Lemma clean_elems_names (rooted : bool) (l rest out : list string) :
  Forall (fun e => is_name e = true) l ->
  clean_elems rooted (l ++ rest) out = clean_elems rooted rest (rev l ++ out).
Proof.
  revert out. induction l as [|e l IH]; intros out H; [reflexivity|].
  inversion H as [|? ? He Hl]; subst.
  apply is_name_spec in He as (H1 & H2 & H3 & _).
  cbn [List.app clean_elems rev]. rewrite H1, H2, H3, (IH _ Hl).
  now rewrite <- app_assoc.
Qed.

(** [Clean] of a rooted path, by the pieces after the leading
    separator. *)
Lemma Clean_rooted (rest : string) :
  Clean (String "/" rest) =
  "/" +:+ join_with "/" (clean_elems true (split_on "/" rest) []).
Proof. reflexivity. Qed.

Lemma clean_elems_to_names (pieces out : list string) :
  Forall (fun e => existsc (fun c => Ascii.eqb c "/"%char) e = false) pieces ->
  Forall (fun e => is_name e = true) out ->
  Forall (fun e => is_name e = true) (clean_elems true pieces out).
Proof.
  revert out. induction pieces as [|e pieces IH]; intros out Hp Ho.
  - cbn. now apply Forall_rev.
  - inversion Hp as [|? ? He Hp']; subst. cbn [clean_elems].
    destruct (String.eqb e "") eqn:H1; [now apply IH|].
    destruct (String.eqb e ".") eqn:H2; [now apply IH|].
    destruct (String.eqb e "..") eqn:H3.
    + destruct out as [|top out']; [now apply IH|].
      inversion Ho as [|? ? Ht Ho']; subst.
      apply is_name_spec in Ht as (_ & _ & Ht & _). rewrite Ht.
      now apply IH.
    + apply IH; [exact Hp'|]. constructor; [|exact Ho].
      unfold is_name. rewrite H1, H2, H3. cbn.
      apply negb_true_iff. exact He.
Qed.

(** [Clean] of a rooted path is a clean rooted path, and [Clean] leaves
    a clean rooted path as it is. *)
Lemma Clean_gives_clean_rooted (path : string) :
  is_rooted path = true -> clean_rooted (Clean path).
Proof.
  destruct path as [|c rest]; [discriminate|]. cbn [is_rooted].
  unfold IsPathSeparator. intros Hc. apply Ascii.eqb_eq in Hc. subst c.
  rewrite Clean_rooted. eexists. split; [|reflexivity].
  apply clean_elems_to_names; [apply split_on_pieces | constructor].
Qed.

Lemma Clean_clean_rooted (path : string) :
  clean_rooted path -> Clean path = path.
Proof.
  intros (elems & Hn & ->). unfold rooted_path.
  change ("/" +:+ join_with "/" elems) with (String "/" (join_with "/" elems)).
  rewrite Clean_rooted. destruct elems as [|w ws]; [reflexivity|].
  rewrite (split_join w ws (names_pieces _ Hn)).
  rewrite <- (app_nil_r (w :: ws)) at 1.
  rewrite (clean_elems_names true (w :: ws) [] [] Hn).
  cbn [clean_elems]. now rewrite app_nil_r, rev_involutive.
Qed.

Lemma Abs_cases (w : world) (path : string) :
  Abs w path =
  if is_rooted path then Ok (Clean path)
  else match Getwd w with
       | Err e => Err e
       | Ok wd => Ok (Join wd path)
       end.
Proof. destruct path as [|c rest]; reflexivity. Qed.

Lemma Join_rooted (wd path : string) :
  is_rooted wd = true -> is_rooted (wd +:+ "/" +:+ path) = true /\
  Join wd path =
  Clean (if String.eqb path "" then wd else wd +:+ "/" +:+ path).
Proof.
  intros H. destruct wd as [|c wd']; [discriminate|]. split; [exact H|].
  unfold Join. cbn [String.eqb]. now destruct (String.eqb path "").
Qed.

Lemma Abs_clean_rooted (w : world) (path abs : string) :
  (forall wd, Getwd w = Ok wd -> is_rooted wd = true) ->
  Abs w path = Ok abs -> clean_rooted abs.
Proof.
  intros Hwd. rewrite Abs_cases. destruct (is_rooted path) eqn:Hr.
  - intros [= <-]. apply Clean_gives_clean_rooted. exact Hr.
  - destruct (Getwd w) as [wd|e] eqn:Hg; [|discriminate].
    intros [= <-]. destruct (Join_rooted wd path (Hwd wd eq_refl)) as (Hr' & ->).
    apply Clean_gives_clean_rooted.
    destruct (String.eqb path ""); [now apply Hwd | exact Hr'].
Qed.

Lemma Abs_of_clean_rooted (w : world) (path : string) :
  clean_rooted path -> Abs w path = Ok path.
Proof.
  intros Hc. rewrite Abs_cases.
  assert (Hr : is_rooted path = true) by (now destruct Hc as (elems & _ & ->)).
  now rewrite Hr, (Clean_clean_rooted path Hc).
Qed.

(** X10.  What [processPath] returns is a clean absolute path that
    [os.Stat] does not report missing, and [processPath] maps it to
    itself; it fails only when the working directory cannot be found
    (for a relative path) or when the path does not exist.  A path that
    exists but cannot be examined, or is not a directory, is let
    through. *)
Theorem processPath_result (w : world) (inputPath : string) :
  (forall wd, Getwd w = Ok wd -> is_rooted wd = true) ->
  (forall q, processPath w inputPath = Ok q ->
     clean_rooted q /\ Stat w q <> StatNotExist /\
     processPath w q = Ok q) /\
  (forall e, processPath w inputPath = Err e ->
     (exists e', Getwd w = Err e' /\ is_rooted inputPath = false /\
        e = ErrDriver ("路径解析失败: " +:+ error_message e')) \/
     (exists abs, Abs w inputPath = Ok abs /\ Stat w abs = StatNotExist /\
        e = ErrDriver ("目标目录不存在: " +:+ abs))) /\
  (forall abs, Abs w inputPath = Ok abs -> Stat w abs = StatError ->
     processPath w inputPath = Ok abs).
Proof.
  intros Hwd. split; [|split].
  - intros q. unfold processPath at 1.
    destruct (Abs w (ToSlash inputPath)) as [abs|e] eqn:Habs; [|discriminate].
    pose proof (Abs_clean_rooted w _ abs Hwd Habs) as Hclean.
    assert (Hfix : Stat w abs <> StatNotExist -> processPath w abs = Ok abs).
    { intros Hs. unfold processPath, ToSlash.
      rewrite (Abs_of_clean_rooted w abs Hclean).
      destruct (Stat w abs); [reflexivity | contradiction | reflexivity]. }
    unfold ToSlash.
    destruct (Stat w abs) eqn:Hstat; try discriminate;
      intros [= <-]; (split; [exact Hclean|]); rewrite Hstat;
      (split; [discriminate | apply Hfix; discriminate]).
  - intros e. unfold processPath, ToSlash. rewrite Abs_cases.
    destruct (is_rooted inputPath) eqn:Hr.
    + destruct (Stat w (Clean inputPath)) eqn:Hstat; try discriminate.
      intros [= <-]. right. now exists (Clean inputPath).
    + destruct (Getwd w) as [wd|e0] eqn:Hg.
      * destruct (Stat w (Join wd inputPath)) eqn:Hstat; try discriminate.
        intros [= <-]. right. now exists (Join wd inputPath).
      * intros [= <-]. left. now exists e0.
  - intros abs Habs Hstat. unfold processPath, ToSlash.
    now rewrite Habs, Hstat.
Qed.

Lemma processPath_result_witness :
  processPath (Examples.example_world true) "media//photos/../music/" =
    Ok "/opt/nas/media/music" /\
  processPath (Examples.example_world true) "/opt/nas/media/music" =
    Ok "/opt/nas/media/music".
Proof.
  split; [vm_compute; reflexivity|].
  destruct (processPath_result (Examples.example_world true)
              "media//photos/../music/") as (H & _).
  - intros wd Hg. vm_compute in Hg. injection Hg as <-. reflexivity.
  - destruct (H "/opt/nas/media/music") as (_ & _ & Hfix).
    + vm_compute. reflexivity.
    + exact Hfix.
Defined.

Lemma existsc_append_sep (a n : string) :
  existsc IsPathSeparator (a +:+ String "/" n) = true.
Proof.
  induction a as [|c a IH]; cbn; [reflexivity|].
  rewrite IH. apply orb_true_r.
Qed.

Lemma through_last_separator_plain (n : string) :
  existsc IsPathSeparator n = false -> through_last_separator n = "".
Proof. destruct n as [|c n]; [reflexivity|]. cbn. now intros ->. Qed.

Lemma through_last_separator_append (a n : string) :
  existsc IsPathSeparator n = false ->
  through_last_separator (a +:+ String "/" n) = a +:+ "/".
Proof.
  intros Hn. induction a as [|c a IH].
  - cbn. now rewrite (through_last_separator_plain n Hn).
  - cbn [String.append through_last_separator].
    now rewrite existsc_append_sep, orb_true_r, IH.
Qed.

Lemma after_last_separator_plain (n : string) :
  existsc IsPathSeparator n = false -> after_last_separator n = n.
Proof. destruct n as [|c n]; [reflexivity|]. cbn. now intros ->. Qed.

Lemma after_last_separator_append (a n : string) :
  existsc IsPathSeparator n = false ->
  after_last_separator (a +:+ String "/" n) = n.
Proof.
  intros Hn. induction a as [|c a IH].
  - cbn. now apply after_last_separator_plain.
  - cbn [String.append after_last_separator].
    now rewrite existsc_append_sep, orb_true_r.
Qed.

Lemma strip_trailing_plain (n : string) :
  existsc IsPathSeparator n = false -> strip_trailing_separators n = n.
Proof.
  induction n as [|c n IH]; [reflexivity|]. cbn. intros H.
  apply orb_false_iff in H as [Hc Hn]. rewrite (IH Hn), Hc.
  now rewrite andb_false_r.
Qed.

Lemma strip_trailing_append (a n : string) :
  n <> "" -> existsc IsPathSeparator n = false ->
  strip_trailing_separators (a +:+ n) = a +:+ n.
Proof.
  intros Hne Hn. induction a as [|c a IH].
  - now apply strip_trailing_plain.
  - cbn [String.append strip_trailing_separators]. rewrite IH.
    destruct (a +:+ n) eqn:E; [|reflexivity].
    destruct a; cbn in E; [contradiction | discriminate].
Qed.

(** A walked path as the directory, a separator and the name. *)
Lemma entry_path_append (elems : list string) (name : string) :
  entry_path elems name =
  (match elems with [] => "" | _ :: _ => rooted_path elems end)
  +:+ String "/" name.
Proof.
  unfold entry_path, rooted_path. destruct elems as [|w ws]; [reflexivity|].
  rewrite join_snoc.
  change ("/" +:+ join_with "/" (w :: ws) +:+ "/" +:+ name)
    with (String "/" (join_with "/" (w :: ws) +:+ String "/" name)).
  change ("/" +:+ join_with "/" (w :: ws))
    with (String "/" (join_with "/" (w :: ws))).
  reflexivity.
Qed.

Lemma names_snoc (elems : list string) (name : string) :
  Forall (fun e => is_name e = true) elems -> is_name name = true ->
  Forall (fun e => is_name e = true) (elems ++ [name]).
Proof.
  intros He Hn. apply Forall_app. split; [exact He | now constructor].
Qed.

(** X11.  A regular file visited at the path that a walk forms from a
    clean directory and a name is stored with that directory as its
    [path] and that name as its [filename]: [filepath.Dir] and
    [filepath.Base] undo the [filepath.Join] of the walk, so the path and
    the filename of a record together give back the path of the file. *)
Theorem walked_path_splits (elems : list string) (name : string)
    (info : FileInfo) :
  Forall (fun e => is_name e = true) elems -> is_name name = true ->
  Join (rooted_path elems) name = entry_path elems name /\
  Dir (entry_path elems name) = rooted_path elems /\
  Base (entry_path elems name) = name /\
  (IsDir info = false ->
   tuple_of (Visit (entry_path elems name) info) =
   [(rooted_path elems, name, Size info, Format_RFC3339 (ModTime info))]).
Proof.
  intros He Hn. pose proof (is_name_spec name Hn) as (Hne & _ & _ & Hsep).
  assert (Hdir : Dir (entry_path elems name) = rooted_path elems).
  { unfold Dir. rewrite entry_path_append.
    rewrite (through_last_separator_append _ name Hsep).
    destruct elems as [|w ws]; [reflexivity|].
    unfold rooted_path.
    change (("/" +:+ join_with "/" (w :: ws)) +:+ "/")
      with (String "/" (join_with "/" (w :: ws) +:+ String "/" "")).
    rewrite Clean_rooted, split_on_append.
    rewrite (split_join w ws (names_pieces _ He)).
    rewrite (clean_elems_names true (w :: ws) _ [] He).
    cbn [split_on List.app clean_elems String.eqb].
    now rewrite app_nil_r, rev_involutive. }
  assert (Hbase : Base (entry_path elems name) = name).
  { unfold Base. rewrite entry_path_append.
    destruct name as [|c name']; [discriminate|].
    set (a := match elems with [] => "" | _ :: _ => rooted_path elems end).
    destruct (a +:+ String "/" (String c name')) eqn:E.
    { destruct a; discriminate. }
    rewrite <- E.
    replace (a +:+ String "/" (String c name'))
      with ((a +:+ "/") +:+ String c name') by (now rewrite append_assoc).
    rewrite strip_trailing_append by (trivial; discriminate).
    rewrite append_assoc.
    change ("/" +:+ String c name') with (String "/" (String c name')).
    rewrite (after_last_separator_append a _ Hsep). reflexivity. }
  split; [|split; [exact Hdir | split; [exact Hbase|]]].
  - unfold Join. destruct (String.eqb (rooted_path elems) "") eqn:E1;
      [discriminate|]. rewrite Hne.
    destruct elems as [|w ws].
    + unfold rooted_path, entry_path. cbn [join_with List.app].
      change (("/" +:+ "") +:+ "/" +:+ name) with (String "/" (String "/" name)).
      rewrite Clean_rooted.
      change (split_on "/" (String "/" name)) with ("" :: split_on "/" name).
      rewrite (split_on_plain _ _ Hsep).
      change (clean_elems true [""; name] [])
        with (clean_elems true ([name] ++ []) []).
      rewrite (clean_elems_names true [name] [] []) by (now constructor).
      reflexivity.
    + assert (E : rooted_path (w :: ws) +:+ "/" +:+ name
                  = entry_path (w :: ws) name).
      { unfold entry_path, rooted_path. rewrite join_snoc.
        now rewrite !append_assoc. }
      rewrite E. apply Clean_clean_rooted.
      exists ((w :: ws) ++ [name]). split; [now apply names_snoc | reflexivity].
  - intros Hreg. unfold tuple_of, ToSlash. now rewrite Hreg, Hdir, Hbase.
Qed.

Lemma walked_path_splits_witness :
  Dir "/data/img/photo.png" = "/data/img" /\
  Base "/data/img/photo.png" = "photo.png".
Proof.
  destruct (walked_path_splits ["data"; "img"] "photo.png" Examples.a_directory)
    as (_ & Hd & Hb & _).
  - repeat constructor.
  - reflexivity.
  - split; [exact Hd | exact Hb].
Defined.

End PathFacts.

(** ** A rebuild, then a search *)

Section EndToEnd.
Import Str Sqlite Os Filepath Scan Server Plain.

Lemma joined_rows_filter (pattern : string) (ps : list path_row)
    (f : file_row) :
  List.filter (fun t => like pattern (tuple_filename t)) (joined_rows ps f) =
  if like pattern (f_filename f) then joined_rows ps f else [].
Proof.
  unfold joined_rows. induction ps as [|p ps IH].
  - now destruct (like pattern (f_filename f)).
  - cbn [flat_map]. rewrite List.filter_app, IH.
    destruct (f_path_id f =? p_id p)%Z; cbn [List.filter tuple_filename];
      destruct (like pattern (f_filename f)); reflexivity.
Qed.

(** The query selects, of all joined rows, those whose filename
    matches. *)
Lemma select_is_filter (db : store) (pattern : string) :
  select_files_like db pattern =
  List.filter (fun t => like pattern (tuple_filename t)) (tuples db).
Proof.
  unfold tuples, select_files_like.
  induction (files db) as [|f l IH]; [reflexivity|].
  cbn [flat_map]. rewrite List.filter_app, like_percent_all, <- IH.
  now rewrite joined_rows_filter.
Qed.

(** X12.  After a rebuild that commits, a search returns exactly the
    regular files of the walk whose base name matches, in the order in
    which the walk visited them, each with the directory of its path,
    its size and its modification time as RFC 3339 text; nothing of an
    earlier generation is found. *)
Theorem rebuild_then_search (e : env) (db : store) (term : string) :
  how (scanAndSave e db) = Done ->
  search (committed_after (scanAndSave e db)) term =
  found_in_walk (second_walk e) term.
Proof.
  intros Hdone.
  destruct (scanAndSave_cases e db)
    as [(msg & lg & Hhow & _) | (s & _ & Hc & _ & _ & Ht & _)];
    [rewrite Hhow in Hdone; discriminate|].
  rewrite search_rows, select_is_filter, Hc, Ht. unfold found_in_walk.
  apply map_ext. now intros [[[a b] c] d].
Qed.

Lemma rebuild_then_search_witness :
  search (committed_after
            (scanAndSave Examples.example_env Examples.old_store)) "PHOTO" =
  [mk_FileInfo "/data/img" "photo.png" 2048 "2024-01-02T10:30:00Z"].
Proof.
  rewrite (rebuild_then_search Examples.example_env Examples.old_store "PHOTO").
  - vm_compute. reflexivity.
  - vm_compute. reflexivity.
Defined.

Lemma handler_body_witness :
  handle_get Examples.example_store
    {| query_fault := None; next_fault := Some 1%nat |}
    [("key", "p"); ("type", "file")] =
  {| status := 200; content_type := "application/json";
     content :=
       Json (JArray
               [encode_FileInfo
                  (mk_FileInfo "/data/img" "photo.png" 2048
                     "2024-01-02T10:30:00Z")]) |}.
Proof.
  destruct (handler_body Examples.example_store
              {| query_fault := None; next_fault := Some 1%nat |}
              [("key", "p"); ("type", "file")]) as (H & _).
  - discriminate.
  - reflexivity.
  - reflexivity.
  - rewrite H. vm_compute. reflexivity.
Defined.

End EndToEnd.

(** ** The first failure stops a rebuild *)

Section FailFast.
Import Sqlite Os Filepath Scan Plain.

Lemma all_pass_succ (fp : fault_plan) (n : nat) :
  all_pass fp n -> fp n = None -> all_pass fp (S n).
Proof.
  intros Ha Hn k Hk. destruct (Nat.eq_dec k n) as [->|Hne]; [exact Hn|].
  apply Ha. lia.
Qed.

Lemma run_sent {A : Type} (fp : fault_plan) (t t' : txn)
    (stmt : store -> store * A) (r : result A) :
  all_pass fp (sent t) -> run fp t stmt = (t', r) ->
  match r with
  | Ok _ => all_pass fp (sent t')
  | Err e => stopped_at_first_fault fp t' e
  end.
Proof.
  intros Ha H.
  destruct (run_cases fp t stmt) as [(msg & Hf & Hrun) | (Hf & Hrun & _)];
    rewrite Hrun in H; injection H as <- <-; cbn [sent].
  - now exists (sent t), msg.
  - now apply all_pass_succ.
Qed.

Lemma path_id_of_sent (fp : fault_plan) (db0 : store) (s s' : state)
    (dir : string) (r : result Z) :
  well_formed db0 s -> all_pass fp (sent (tx s)) ->
  path_id_of fp s dir = (s', r) ->
  match r with
  | Ok _ => all_pass fp (sent (tx s'))
  | Err e => stopped_at_first_fault fp (tx s') e
  end.
Proof.
  intros (Hc & _) Ha H. unfold path_id_of in H.
  destruct (pathCache s !! dir) as [id|] eqn:Hlook.
  - injection H as <- <-. exact Ha.
  - assert (Hnew : forall i, ~ In (mk_path_row i dir) (paths (view (tx s)))).
    { intros i Hin. apply Hc in Hin. congruence. }
    destruct (run fp (tx s) (fun db => insert_or_ignore_path db dir))
      as [t' res] eqn:Hrun.
    pose proof (run_sent _ _ _ _ _ Ha Hrun) as Hs.
    destruct (run_cases fp (tx s) (fun db => insert_or_ignore_path db dir))
      as [(msg & _ & Hrun') | (_ & Hrun' & _)];
      rewrite Hrun' in Hrun; injection Hrun as <- <-.
    + cbn [Row_Scan] in H. injection H as <- <-. exact Hs.
    + rewrite (insert_or_ignore_path_new _ _ Hnew) in H, Hs.
      cbn [fst snd Row_Scan] in H. injection H as <- <-. exact Hs.
Qed.

Lemma scan_callback_sent (fp : fault_plan) (total : Z) (db0 : store)
    (v : visit) (s s' : state) (r : option error) :
  well_formed db0 s -> all_pass fp (sent (tx s)) ->
  scan_callback fp total v s = (s', r) ->
  match r with
  | None => all_pass fp (sent (tx s'))
  | Some e => stopped_at_first_fault fp (tx s') e
  end.
Proof.
  intros Hwf Ha H. unfold scan_callback in H.
  destruct v as [path info | path err]; [|injection H as <- <-; exact Ha].
  destruct (IsDir info); [injection H as <- <-; exact Ha|].
  cbn zeta in H.
  destruct (path_id_of fp s (ToSlash (Dir path))) as [s1 [pathID | e]] eqn:Hp.
  2:{ injection H as <- <-. apply (path_id_of_sent _ _ _ _ _ _ Hwf Ha Hp). }
  pose proof (path_id_of_sent _ _ _ _ _ _ Hwf Ha Hp) as Ha1. cbn in Ha1.
  match type of H with
  | context [run fp (tx s1) ?stmt] =>
      destruct (run fp (tx s1) stmt) as [t2 [u|e]] eqn:Hrun;
      pose proof (run_sent _ _ _ _ _ Ha1 Hrun) as Hs
  end; injection H as <- <-; exact Hs.
Qed.

Lemma walk_sent (fp : fault_plan) (total : Z) (db0 : store)
    (vs : list visit) (s s' : state) (r : option error) :
  well_formed db0 s -> all_pass fp (sent (tx s)) ->
  Walk vs (scan_callback fp total) s = (s', r) ->
  match r with
  | None => all_pass fp (sent (tx s'))
  | Some e => stopped_at_first_fault fp (tx s') e
  end.
Proof.
  revert s. induction vs as [|v vs IH]; intros s Hwf Ha H; cbn [Walk] in H.
  - injection H as <- <-. exact Ha.
  - destruct (scan_callback fp total v s) as [s1 [e|]] eqn:Hcb.
    + injection H as <- <-. apply (scan_callback_sent _ _ _ _ _ _ _ Hwf Ha Hcb).
    + pose proof (proj1 (scan_callback_spec _ _ _ _ _ _ _ Hwf Hcb)) as Hwf1.
      pose proof (scan_callback_sent _ _ _ _ _ _ _ Hwf Ha Hcb) as Ha1.
      now apply (IH s1).
Qed.

Lemma clear_tables_first_fault (fp : fault_plan) (db : store) (t1 : txn)
    (r : option error) :
  clear_tables fp (Begin db) = (t1, r) ->
  match r with
  | None => all_pass fp (sent t1)
  | Some e => stopped_at_first_fault fp t1 e
  end.
Proof.
  unfold clear_tables. intros H.
  assert (Ha0 : all_pass fp (sent (Begin db))) by (intros k Hk; cbn in Hk; lia).
  destruct (run fp (Begin db) (fun d => (delete_files d, tt)))
    as [t [u|e]] eqn:Hrun; pose proof (run_sent _ _ _ _ _ Ha0 Hrun) as Hs.
  2:{ injection H as <- <-. exact Hs. }
  destruct (run fp t (fun d => (delete_paths d, tt)))
    as [t' [u'|e]] eqn:Hrun2; pose proof (run_sent _ _ _ _ _ Hs Hrun2) as Hs2;
    injection H as <- <-; exact Hs2.
Qed.

(** X13.  A rebuild stops at the first statement that fails: the error
    it ends the process with is the error of that statement, every
    statement before it succeeded, and none is sent after it.  When all
    statements succeed, only [db.Begin] or [tx.Commit] can end it. *)
Theorem rebuild_stops_at_first_fault (e : env) (db : store)
    (code : Z) (err : error) :
  how (scanAndSave e db) = Exit code err ->
  code = 1 /\
  match last_tx (scanAndSave e db) with
  | None => exists msg, begin_fault e = Some msg /\ err = ErrDriver msg
  | Some t =>
      stopped_at_first_fault (faults e) t err \/
      (exists msg, commit_fault e = Some msg /\ err = ErrDriver msg /\
         all_pass (faults e) (sent t))
  end.
Proof.
  unfold scanAndSave. change (sql_Open "sqlite") with (Ok tt : result unit).
  destruct (begin_fault e) as [msg|].
  { cbn. intros [= <- <-]. split; [reflexivity | now exists msg]. }
  destruct (clear_tables (faults e) (Begin db)) as [t1 r] eqn:Hclear.
  pose proof (clear_tables_first_fault _ _ _ _ Hclear) as Hs1.
  destruct (clear_tables_spec _ _ _ _ Hclear) as (Hh1 & Hr).
  destruct r as [e1|].
  { cbn. intros [= <- <-]. split; [reflexivity | now left]. }
  destruct Hr as (Hv & _).
  pose proof (first_walk_never_fails (first_walk e) 0) as Hfirst.
  destruct (Walk (first_walk e) count_callback 0) as [total r1] eqn:Hw1.
  cbn [snd] in Hfirst. subst r1.
  set (lg := [Println "开始扫描文件..."] ++ [Printf_total total]).
  destruct (Walk (second_walk e) (scan_callback (faults e) total)
              (start_state t1 lg)) as [s r] eqn:Hw2.
  pose proof (walk_sent _ _ db _ _ _ _
                (start_state_well_formed db t1 lg Hv Hh1) Hs1 Hw2) as Hs2.
  destruct r as [e2|].
  { cbn. intros [= <- <-]. split; [reflexivity | now left]. }
  destruct (commit_fault e) as [msg|]; [|discriminate].
  cbn. intros [= <- <-]. split; [reflexivity|]. right. now exists msg.
Qed.

(** X14.  Only the database can make a rebuild fail: when [db.Begin],
    every statement and [tx.Commit] succeed, the rebuild commits
    whatever the two walks visit; an entry that cannot be read is
    skipped and never aborts it. *)
Theorem rebuild_fails_only_through_database (e : env) (db : store) :
  begin_fault e = None -> (forall n, faults e n = None) ->
  commit_fault e = None ->
  how (scanAndSave e db) = Done /\
  committed_after (scanAndSave e db) = index_of (second_walk e).
Proof.
  intros Hb Hf Hc.
  assert (Hnot : forall t err, ~ stopped_at_first_fault (faults e) t err).
  { intros t err (n & msg & _ & Hn & _). rewrite Hf in Hn. discriminate. }
  assert (Hdone : how (scanAndSave e db) = Done).
  { unfold scanAndSave. change (sql_Open "sqlite") with (Ok tt : result unit). rewrite Hb.
    destruct (clear_tables (faults e) (Begin db)) as [t1 r] eqn:Hclear.
    pose proof (clear_tables_first_fault _ _ _ _ Hclear) as Hs1.
    destruct (clear_tables_spec _ _ _ _ Hclear) as (Hh1 & Hr).
    destruct r as [e1|]; [now destruct (Hnot t1 e1)|]. destruct Hr as (Hv & _).
    pose proof (first_walk_never_fails (first_walk e) 0) as Hfirst.
    destruct (Walk (first_walk e) count_callback 0) as [total r1] eqn:Hw1.
    cbn [snd] in Hfirst. subst r1.
    set (lg := [Println "开始扫描文件..."] ++ [Printf_total total]).
    destruct (Walk (second_walk e) (scan_callback (faults e) total)
                (start_state t1 lg)) as [s r] eqn:Hw2.
    pose proof (walk_sent _ _ db _ _ _ _
                  (start_state_well_formed db t1 lg Hv Hh1) Hs1 Hw2) as Hs2.
    destruct r as [e2|]; [now destruct (Hnot (tx s) e2)|].
    now rewrite Hc. }
  split; [exact Hdone|]. now apply committed_is_index.
Qed.

Lemma rebuild_fails_only_through_database_witness :
  how (scanAndSave
         {| begin_fault := None; faults := no_faults; commit_fault := None;
            first_walk := [VisitErr "/data/locked" (ErrDriver "permission denied")];
            second_walk :=
              VisitErr "/data/locked" (ErrDriver "permission denied")
              :: Examples.example_walk |}
         Examples.old_store) = Done.
Proof.
  apply rebuild_fails_only_through_database; reflexivity.
Defined.

Lemma rebuild_stops_at_first_fault_witness :
  exists t,
    last_tx (scanAndSave Examples.failing_env Examples.old_store) = Some t /\
    sent t = 5%nat.
Proof.
  assert (Hexit : how (scanAndSave Examples.failing_env Examples.old_store)
                  = Exit 1 (ErrDriver "disk I/O error"))
    by (vm_compute; reflexivity).
  pose proof (rebuild_stops_at_first_fault Examples.failing_env
                Examples.old_store 1 (ErrDriver "disk I/O error") Hexit)
    as (_ & H).
  destruct (last_tx (scanAndSave Examples.failing_env Examples.old_store))
    as [t|]; [|destruct H as (msg & Hb & _); discriminate].
  exists t. split; [reflexivity|].
  destruct H as [(n & msg & Hs & Hf & _) | (msg & Hc & _)];
    [|discriminate].
  rewrite Hs. cbn [faults Examples.failing_env] in Hf. unfold fail_at in Hf.
  destruct (Nat.eqb_spec n 4) as [->|_]; [reflexivity | discriminate].
Defined.

End FailFast.

(** ** A failure of the database ends the process *)

Section FatalRebuild.
Import Sqlite Os Filepath Scan Main Examples Plain.

(** What a rebuild that commits has met: [db.Begin], [tx.Commit] and
    every statement it sent succeeded. *)
Lemma done_needs (e : env) (db : store) :
  how (scanAndSave e db) = Done ->
  begin_fault e = None /\ commit_fault e = None /\
  exists t, last_tx (scanAndSave e db) = Some t /\
    all_pass (faults e) (sent t).
Proof.
  unfold scanAndSave. change (sql_Open "sqlite") with (Ok tt : result unit).
  destruct (begin_fault e) as [msg|]; [discriminate|].
  destruct (clear_tables (faults e) (Begin db)) as [t1 r] eqn:Hclear.
  pose proof (clear_tables_first_fault _ _ _ _ Hclear) as Hs1.
  destruct (clear_tables_spec _ _ _ _ Hclear) as (Hh1 & Hr).
  destruct r as [e1|]; [discriminate|]. destruct Hr as (Hv & _).
  pose proof (first_walk_never_fails (first_walk e) 0) as Hfirst.
  destruct (Walk (first_walk e) count_callback 0) as [total r1] eqn:Hw1.
  cbn [snd] in Hfirst. subst r1.
  set (lg := [Println "开始扫描文件..."] ++ [Printf_total total]).
  destruct (Walk (second_walk e) (scan_callback (faults e) total)
              (start_state t1 lg)) as [s r] eqn:Hw2.
  pose proof (walk_sent _ _ db _ _ _ _
                (start_state_well_formed db t1 lg Hv Hh1) Hs1 Hw2) as Hs2.
  destruct r as [e2|]; [discriminate|].
  destruct (commit_fault e) as [msg|]; [discriminate|].
  intros _. split; [reflexivity|]. split; [reflexivity|].
  exists (tx s). split; [reflexivity | exact Hs2].
Qed.

(** A rebuild that meets a failure of the database does not commit. *)
Lemma failure_is_met (e : env) (db : store) :
  meets_failure e -> how (scanAndSave e db) <> Done.
Proof.
  intros Hfail Hdone.
  destruct (done_needs e db Hdone) as (Hb & Hc & t & Ht & Hpass).
  destruct (committed_is_index e db Hdone) as (_ & t' & Ht' & _ & Hsent).
  rewrite Ht in Ht'. injection Ht' as <-.
  destruct Hfail as [H | [(n & msg & Hn & Hlt) | H]]; [contradiction| |contradiction].
  unfold statements_of in Hlt. rewrite <- Hsent in Hlt.
  rewrite (Hpass n Hlt) in Hn. discriminate.
Qed.

(** C3 (as amended).  When [db.Begin], a statement that the rebuild
    sends or [tx.Commit] fails, the rebuild is rolled back, the error is
    the last line of the log, and the process exits with status 1: the
    store file keeps the prior generation, but the process answers no
    further request.  So it is at start-up too: when the first scan
    meets such a failure, start-up ends there. *)
Theorem failed_rebuild_is_fatal (e : Scan.env) (db : store) :
  meets_failure e ->
  (exists msg lg,
     how (scanAndSave e db) = Exit 1 (ErrDriver msg) /\
     out_log (scanAndSave e db) = lg ++ [Scan.Fatal (ErrDriver msg)] /\
     committed_after (scanAndSave e db) = db) /\
  (forall p,
     alive p = true -> scanning p <> 0%nat -> generation p = db ->
     alive (step p (ScanReturns e)) = false /\
     generation (step p (ScanReturns e)) = db /\
     forall fault query, answer (step p (ScanReturns e)) fault query = None) /\
  (forall w,
     first_scan w = e -> db = empty_store ->
     In ScanStarted (trace (main w)) -> final (main w) = Exited).
Proof.
  intros Hmeets. pose proof (failure_is_met e db Hmeets) as Hfail.
  destruct (scanAndSave_cases e db)
    as [(msg & lg & Hhow & Hc & Hlog & _) | (s & Hhow & _)];
    [|contradiction].
  split; [now exists msg, lg|]. split.
  - intros p Ha Hs Hg.
    assert (Hstep : step p (ScanReturns e) =
                    {| generation := db; scanning := 0; alive := false |}).
    { unfold step. rewrite Ha. cbn [negb].
      destruct (scanning p) as [|n]; [contradiction|].
      now rewrite Hg, Hhow, Hc. }
    rewrite Hstep. repeat split.
  - intros w <- -> Hin.
    destruct (main_cases w)
      as [(m & ->) | [(exe & _ & _ & [(c & err & _ & ->) | (Hd & _)])
                     | (exe & _ & _ & Hm)]].
    + reflexivity.
    + reflexivity.
    + rewrite Hhow in Hd. discriminate.
    + exfalso. rewrite Hm in Hin.
      destruct (schedule_and_serve_cases w (Getenv w "time") [] (existing w))
        as [(m & E) | [(h & m & m' & E) | (h & m & E)]];
        rewrite E in Hin; cbn in Hin;
        repeat (destruct Hin as [Hin | Hin]; [discriminate|]); exact Hin.
Qed.

Lemma failed_rebuild_is_fatal_witness :
  how (scanAndSave failing_env old_store)
    = Exit 1 (ErrDriver "disk I/O error") /\
  alive (step (step (after_boot old_store) CronFires)
           (ScanReturns failing_env)) = false /\
  generation (step (step (after_boot old_store) CronFires)
                (ScanReturns failing_env)) = old_store.
Proof.
  assert (Hmeets : meets_failure failing_env).
  { right. left. exists 4%nat, "disk I/O error".
    split; [reflexivity | vm_compute; lia]. }
  destruct (failed_rebuild_is_fatal failing_env old_store Hmeets)
    as ((msg & lg & Hhow & _) & Hstep & _).
  split.
  - pose proof Hhow as Hmsg. vm_compute in Hmsg. injection Hmsg as Hmsg.
    rewrite Hhow, <- Hmsg. reflexivity.
  - destruct (Hstep (step (after_boot old_store) CronFires))
      as (Hdead & Hgen & _).
    + reflexivity.
    + vm_compute. discriminate.
    + reflexivity.
    + split; [exact Hdead | exact Hgen].
Defined.

End FatalRebuild.
